(** * powerquery-language-services: workspace cache and analysis session

    A shallow embedding of [workspaceCache.ts] (the staged, memoised
    lexer -> snapshot -> parser -> inspection pipeline) and of [analysis.ts]
    (cursor-to-token resolution and the provider fan-out), followed by the
    properties of the specification that concern them.

    Conventions of the embedding:
    - JavaScript numbers that hold offsets and line numbers are [Z];
    - [undefined] / [null] results are [option];
    - the module-level [Map]s are fields of an explicit [Workspace] state that
      every cache operation threads through;
    - calls into the external engine are recorded in a log kept in that state,
      so that "the engine was (not) invoked" is a statement about the log;
    - a JavaScript object whose identity matters (the [Position] used as a
      [WeakMap] key) is a value paired with its address. *)

From stdpp Require Import base option list gmap strings.
From Stdlib Require Import ZArith.

Set Default Proof Using "Type".
Local Open Scope Z_scope.

(* ================================================================== *)
(** ** Types of vscode-languageserver-types used by the sources       *)
(* ================================================================== *)

Record Position := mkPosition { line : Z; character : Z }.

Record Range := mkRange { range_start : Position; range_end : Position }.

(** [TextDocument] is an interface: an object carrying its [uri] and its
    [getText(range?)] method. *)
Record TextDocument := mkTextDocument {
  uri : string;
  getText : option Range -> string;
}.

Record TextDocumentContentChangeEvent := mkChange {
  change_range : option Range;
  change_text : string;
}.

(** A reference to a JavaScript object: the object's address and the value
    it holds.  Two references denote the same object exactly when their
    addresses agree. *)
Record JsRef (A : Type) := mkRef { addr : positive; deref : A }.
Arguments mkRef {A} _ _.
Arguments addr {A} _.
Arguments deref {A} _.

(* ================================================================== *)
(** ** The external engine (powerquery-parser)                        *)
(* ================================================================== *)

Module PQP.

Inductive Result (T E : Type) : Type :=
| Ok (value : T)
| Err (error : E).
Arguments Ok {T E} _.
Arguments Err {T E} _.

Definition isErr {T E} (r : Result T E) : bool :=
  match r with Err _ => true | Ok _ => false end.

Definition isOk {T E} (r : Result T E) : bool :=
  match r with Ok _ => true | Err _ => false end.

(** The two settings the cache sets; every other field of
    [PQP.DefaultSettings] is constant and lives in the engine functions. *)
Record Settings (Resolver : Type) := mkSettings {
  locale : string;
  maybeExternalTypeResolver : option Resolver;
}.
Arguments mkSettings {Resolver} _ _.
Arguments locale {Resolver} _.
Arguments maybeExternalTypeResolver {Resolver} _.

(** The position record handed to [Task.tryInspection]. *)
Record InspectionPosition := mkInspectionPosition {
  lineCodeUnit : Z;
  lineNumber : Z;
}.

(** [PQP.LineTokenKind] is a string enum; the analysis only tests for
    [Identifier]. *)
Definition LineTokenKind : Type := string.

Definition LineTokenKind_Identifier : LineTokenKind := "Identifier".

Record LineToken := mkLineToken {
  kind : LineTokenKind;
  data : string;
  positionStart : Z;
  positionEnd : Z;
}.

Record TLine := mkLine { tokens : list LineToken }.

(** [PQP.Lexer.State], as far as the analysis reads it. *)
Record Lexer_State := mkLexerState { lines : list TLine }.

(** The pipeline stage engine: the four pure stage functions, the types
    they produce, and the default settings. *)
Class Engine := {
  LexerState : Type;
  LexerSnapshot : Type;
  ParseOk : Type;
  Inspection : Type;
  TLexError : Type;
  TParseError : Type;
  CommonError : Type;
  TExternalTypeResolverFn : Type;
  DefaultSettings : Settings TExternalTypeResolverFn;
  tryLex : Settings TExternalTypeResolverFn -> string -> Result LexerState TLexError;
  trySnapshot : LexerState -> Result LexerSnapshot TLexError;
  tryParse : Settings TExternalTypeResolverFn -> LexerSnapshot -> Result ParseOk TParseError;
  tryInspection : Settings TExternalTypeResolverFn -> Result ParseOk TParseError ->
                  InspectionPosition -> Result Inspection CommonError;
}.

End PQP.

Import PQP.

(* ================================================================== *)
(** ** workspaceCache.ts                                              *)
(* ================================================================== *)

Module WorkspaceCache.

Inductive CacheStageKind := Lexer | LexerSnapshot | Parser | Inspection.

#[export] Instance CacheStageKind_eq_dec : EqDecision CacheStageKind.
Proof. solve_decision. Defined.

(** Position of a stage in the pipeline. *)
Definition stageRank (k : CacheStageKind) : nat :=
  match k with Lexer => 0 | LexerSnapshot => 1 | Parser => 2 | Inspection => 3 end%nat.

(** The engine functions, as they appear in the call log. *)
Inductive EngineFn := TryLex | TrySnapshot | TryParse | TryInspection.

#[export] Instance EngineFn_eq_dec : EqDecision EngineFn.
Proof. solve_decision. Defined.

(** One recorded engine invocation: which function, on behalf of which
    document. *)
Record EngineCall := mkCall { call_fn : EngineFn; call_uri : string }.

#[export] Instance EngineCall_eq_dec : EqDecision EngineCall.
Proof. solve_decision. Defined.

(** Number of invocations of [f] for the document [u] in a log. *)
Definition invocations (f : EngineFn) (u : string) (log : list EngineCall) : nat :=
  length (filter (λ c, c = mkCall f u) log).
Arguments invocations : simpl never.

Section WithEngine.
Context `{E : Engine}.

(** [TCacheItem]: the union of the four [CacheItem] types, discriminated
    by its [stage] field. *)
Inductive TCacheItem :=
| LexerItem (r : Result LexerState TLexError)
| LexerSnapshotItem (r : Result PQP.LexerSnapshot TLexError)
| ParserItem (r : Result ParseOk TParseError)
| InspectionItem (r : Result PQP.Inspection CommonError).

(** [LexerCacheItem] is the first variant alone; [LexerItem] injects it
    into the union, its [stage] being the constant [Lexer]. *)
Definition LexerCacheItem : Type := Result LexerState TLexError.

Definition stage (i : TCacheItem) : CacheStageKind :=
  match i with
  | LexerItem _ => Lexer
  | LexerSnapshotItem _ => LexerSnapshot
  | ParserItem _ => Parser
  | InspectionItem _ => Inspection
  end.

Definition itemIsErr (i : TCacheItem) : bool :=
  match i with
  | LexerItem r => isErr r
  | LexerSnapshotItem r => isErr r
  | ParserItem r => isErr r
  | InspectionItem r => isErr r
  end.

Definition itemIsOk (i : TCacheItem) : bool := negb (itemIsErr i).

(** [WeakMap<Position, TInspectionCacheItem>]: keyed by the identity of
    the position object. *)
Abbreviation InspectionMap := (gmap positive TCacheItem).

(** The four module-level maps, and the log of engine invocations. *)
Record Workspace := mkWorkspace {
  LexerStateCache : gmap string LexerCacheItem;
  LexerSnapshotCache : gmap string TCacheItem;
  ParserCache : gmap string TCacheItem;
  InspectionCache : gmap string InspectionMap;
  engineCalls : list EngineCall;
}.

Definition emptyWorkspace : Workspace := mkWorkspace ∅ ∅ ∅ ∅ [].

Definition logCall (f : EngineFn) (d : TextDocument) (w : Workspace) : Workspace :=
  mkWorkspace (LexerStateCache w) (LexerSnapshotCache w) (ParserCache w)
              (InspectionCache w) (engineCalls w ++ [mkCall f (uri d)]).

(** A reference to one of the [Map] objects held in the workspace. *)
Record CacheRef (T : Type) := mkCacheRef {
  readCache : Workspace -> gmap string T;
  writeCache : gmap string T -> Workspace -> Workspace;
}.
Arguments readCache {T} _ _.
Arguments writeCache {T} _ _ _.

Definition LexerStateCacheRef : CacheRef LexerCacheItem :=
  mkCacheRef _ LexerStateCache
    (λ m w, mkWorkspace m (LexerSnapshotCache w) (ParserCache w)
                        (InspectionCache w) (engineCalls w)).

Definition LexerSnapshotCacheRef : CacheRef TCacheItem :=
  mkCacheRef _ LexerSnapshotCache
    (λ m w, mkWorkspace (LexerStateCache w) m (ParserCache w)
                        (InspectionCache w) (engineCalls w)).

Definition ParserCacheRef : CacheRef TCacheItem :=
  mkCacheRef _ ParserCache
    (λ m w, mkWorkspace (LexerStateCache w) (LexerSnapshotCache w) m
                        (InspectionCache w) (engineCalls w)).

Definition setInspectionCache (m : gmap string InspectionMap) (w : Workspace) : Workspace :=
  mkWorkspace (LexerStateCache w) (LexerSnapshotCache w) (ParserCache w)
              m (engineCalls w).

Definition getSettings (maybeLocale : option string)
    (maybeExternalTypeResolver : option TExternalTypeResolverFn)
  : Settings TExternalTypeResolverFn :=
  mkSettings (default (locale DefaultSettings) maybeLocale) maybeExternalTypeResolver.

Definition getOrCreate {T : Type} (cache : CacheRef T)
    (textDocument : TextDocument) (maybeLocale : option string)
    (factoryFn : TextDocument -> option string -> Workspace -> T * Workspace)
    (w : Workspace) : T * Workspace :=
  let cacheKey := uri textDocument in
  match readCache cache w !! cacheKey with
  | None =>
      let '(value, w1) := factoryFn textDocument maybeLocale w in
      (value, writeCache cache (<[cacheKey := value]> (readCache cache w1)) w1)
  | Some maybeValue => (maybeValue, w)
  end.

Definition createLexerCacheItem (textDocument : TextDocument)
    (maybeLocale : option string) (w : Workspace) : LexerCacheItem * Workspace :=
  (tryLex (getSettings maybeLocale None) (getText textDocument None),
   logCall TryLex textDocument w).

Definition getLexerState (textDocument : TextDocument)
    (maybeLocale : option string) : Workspace -> LexerCacheItem * Workspace :=
  getOrCreate LexerStateCacheRef textDocument maybeLocale createLexerCacheItem.

Definition createLexerSnapshotCacheItem (textDocument : TextDocument)
    (maybeLocale : option string) (w : Workspace) : TCacheItem * Workspace :=
  let '(lexerCacheItem, w1) := getLexerState textDocument maybeLocale w in
  match lexerCacheItem with
  | Err _ => (LexerItem lexerCacheItem, w1)
  | Ok lexerState =>
      (LexerSnapshotItem (trySnapshot lexerState), logCall TrySnapshot textDocument w1)
  end.

Definition getTriedLexerSnapshot (textDocument : TextDocument)
    (maybeLocale : option string) : Workspace -> TCacheItem * Workspace :=
  getOrCreate LexerSnapshotCacheRef textDocument maybeLocale createLexerSnapshotCacheItem.

(** The guard [stage !== LexerSnapshot || isErr(item)] returns the item
    as it is; only a successful [LexerSnapshot] item has the [value] the
    parser is run on. *)
Definition createParserCacheItem (textDocument : TextDocument)
    (maybeLocale : option string) (w : Workspace) : TCacheItem * Workspace :=
  let '(lexerSnapshotCacheItem, w1) := getTriedLexerSnapshot textDocument maybeLocale w in
  match lexerSnapshotCacheItem with
  | LexerSnapshotItem (Ok lexerSnapshot) =>
      (ParserItem (tryParse (getSettings maybeLocale None) lexerSnapshot),
       logCall TryParse textDocument w1)
  | _ => (lexerSnapshotCacheItem, w1)
  end.

Definition getTriedParse (textDocument : TextDocument)
    (maybeLocale : option string) : Workspace -> TCacheItem * Workspace :=
  getOrCreate ParserCacheRef textDocument maybeLocale createParserCacheItem.

(** The guard is on the stage tag alone: a [Parser] item is handed to
    [tryInspection] whether it is [Ok] or [Err]. *)
Definition createTriedInspection (textDocument : TextDocument)
    (position : Position) (maybeLocale : option string)
    (maybeExternalTypeResolver : option TExternalTypeResolverFn)
    (w : Workspace) : TCacheItem * Workspace :=
  let '(parserCacheItem, w1) := getTriedParse textDocument maybeLocale w in
  match parserCacheItem with
  | ParserItem triedParse =>
      (InspectionItem
         (tryInspection (getSettings maybeLocale maybeExternalTypeResolver) triedParse
            (mkInspectionPosition (character position) (line position))),
       logCall TryInspection textDocument w1)
  | _ => (parserCacheItem, w1)
  end.

(** The position cache is the [WeakMap] object stored under the document's
    uri; [positionCache.set] updates that object, hence the entry. *)
Definition getTriedInspection (textDocument : TextDocument)
    (position : JsRef Position) (maybeLocale : option string)
    (maybeExternalTypeResolver : option TExternalTypeResolverFn)
    (w : Workspace) : option TCacheItem * Workspace :=
  let cacheKey := uri textDocument in
  let maybePositionCache := InspectionCache w !! cacheKey in
  let '(positionCache, w1) :=
    match maybePositionCache with
    | Some positionCache => (positionCache, w)
    | None => (∅, setInspectionCache (<[uri textDocument := ∅]> (InspectionCache w)) w)
    end in
  match positionCache !! addr position with
  | Some item => (Some item, w1)
  | None =>
      let '(value, w2) :=
        createTriedInspection textDocument (deref position) maybeLocale
          maybeExternalTypeResolver w1 in
      (Some value,
       setInspectionCache
         (<[uri textDocument := <[addr position := value]> positionCache]>
            (InspectionCache w2)) w2)
  end.

(** [AllCaches.forEach(map => map.delete(textDocument.uri))] *)
Definition close (textDocument : TextDocument) (w : Workspace) : Workspace :=
  mkWorkspace (delete (uri textDocument) (LexerStateCache w))
              (delete (uri textDocument) (LexerSnapshotCache w))
              (delete (uri textDocument) (ParserCache w))
              (delete (uri textDocument) (InspectionCache w))
              (engineCalls w).

Definition update (textDocument : TextDocument)
    (_changes : list TextDocumentContentChangeEvent) (_version : Z)
    (w : Workspace) : Workspace :=
  close textDocument w.

(** *** Vocabulary of the properties *)

(** The three getters that go through [getOrCreate]. *)
Inductive PipelineGetter := GetLexerState | GetTriedLexerSnapshot | GetTriedParse.

Definition runGetter (g : PipelineGetter) (textDocument : TextDocument)
    (maybeLocale : option string) (w : Workspace) : TCacheItem * Workspace :=
  match g with
  | GetLexerState =>
      let '(r, w') := getLexerState textDocument maybeLocale w in (LexerItem r, w')
  | GetTriedLexerSnapshot => getTriedLexerSnapshot textDocument maybeLocale w
  | GetTriedParse => getTriedParse textDocument maybeLocale w
  end.


Definition isCached (g : PipelineGetter) (textDocument : TextDocument) (w : Workspace) : bool :=
  match g with
  | GetLexerState => bool_decide (is_Some (LexerStateCache w !! uri textDocument))
  | GetTriedLexerSnapshot => bool_decide (is_Some (LexerSnapshotCache w !! uri textDocument))
  | GetTriedParse => bool_decide (is_Some (ParserCache w !! uri textDocument))
  end.

(** A getter's own stage is reached when the document has no entry in the
    getter's map and the stage before it hands down a success. *)
Definition stageReached (g : PipelineGetter) (textDocument : TextDocument)
    (maybeLocale : option string) (w : Workspace) : bool :=
  negb (isCached g textDocument w) &&
  match g with
  | GetLexerState => true
  | GetTriedLexerSnapshot => isOk (fst (getLexerState textDocument maybeLocale w))
  | GetTriedParse =>
      match fst (getTriedLexerSnapshot textDocument maybeLocale w) with
      | LexerSnapshotItem (Ok _) => true
      | _ => false
      end
  end.

(** What the engine yields for a document, stage by stage, with no cache in
    between. *)
Definition lexerItemOf (textDocument : TextDocument) (maybeLocale : option string)
  : LexerCacheItem :=
  tryLex (getSettings maybeLocale None) (getText textDocument None).

Definition snapshotItemOf (textDocument : TextDocument) (maybeLocale : option string)
  : TCacheItem :=
  match lexerItemOf textDocument maybeLocale with
  | Err e => LexerItem (Err e)
  | Ok lexerState => LexerSnapshotItem (trySnapshot lexerState)
  end.

Definition parserItemOf (textDocument : TextDocument) (maybeLocale : option string)
  : TCacheItem :=
  match snapshotItemOf textDocument maybeLocale with
  | LexerSnapshotItem (Ok lexerSnapshot) =>
      ParserItem (tryParse (getSettings maybeLocale None) lexerSnapshot)
  | item => item
  end.

Definition inspectionItemOf (textDocument : TextDocument) (maybeLocale : option string)
    (maybeExternalTypeResolver : option TExternalTypeResolverFn) (position : Position)
  : TCacheItem :=
  match parserItemOf textDocument maybeLocale with
  | ParserItem triedParse =>
      InspectionItem
        (tryInspection (getSettings maybeLocale maybeExternalTypeResolver) triedParse
           (mkInspectionPosition (character position) (line position)))
  | item => item
  end.

(** Whether the engine function can run at all for the document: a stage
    runs only on the success of the stage before it (the inspection, on any
    outcome of the parser stage). *)
Definition mayRun (textDocument : TextDocument) (maybeLocale : option string)
    (f : EngineFn) : bool :=
  match f with
  | TryLex => true
  | TrySnapshot => isOk (lexerItemOf textDocument maybeLocale)
  | TryParse =>
      match snapshotItemOf textDocument maybeLocale with
      | LexerSnapshotItem (Ok _) => true
      | _ => false
      end
  | TryInspection =>
      match parserItemOf textDocument maybeLocale with
      | ParserItem _ => true
      | _ => false
      end
  end.

(** The entries stored under the document's uri, if any, are the ones the
    engine yields for this document and locale. *)
Definition coherent (textDocument : TextDocument) (maybeLocale : option string)
    (w : Workspace) : Prop :=
  (∀ i, LexerStateCache w !! uri textDocument = Some i →
        i = lexerItemOf textDocument maybeLocale) ∧
  (∀ i, LexerSnapshotCache w !! uri textDocument = Some i →
        i = snapshotItemOf textDocument maybeLocale) ∧
  (∀ i, ParserCache w !! uri textDocument = Some i →
        i = parserItemOf textDocument maybeLocale).

(** The position object already has an entry in the document's position
    cache. *)
Definition positionCached (textDocument : TextDocument) (position : JsRef Position)
    (w : Workspace) : bool :=
  match InspectionCache w !! uri textDocument with
  | Some positionCache => bool_decide (is_Some (positionCache !! addr position))
  | None => false
  end.

(** The workspaces the public operations can produce, starting from the
    empty maps the module is loaded with. *)
Inductive reachable : Workspace -> Prop :=
| reachable_empty : reachable emptyWorkspace
| reachable_getLexerState d l w :
    reachable w -> reachable (snd (getLexerState d l w))
| reachable_getTriedLexerSnapshot d l w :
    reachable w -> reachable (snd (getTriedLexerSnapshot d l w))
| reachable_getTriedParse d l w :
    reachable w -> reachable (snd (getTriedParse d l w))
| reachable_getTriedInspection d p l r w :
    reachable w -> reachable (snd (getTriedInspection d p l r w))
| reachable_close d w :
    reachable w -> reachable (close d w)
| reachable_update d c v w :
    reachable w -> reachable (update d c v w).

(** A request of the host for the document at hand: one of the four getters,
    or an invalidation. *)
Inductive Request :=
| RequestLexerState
| RequestLexerSnapshot
| RequestParse
| RequestInspection (position : JsRef Position)
    (maybeExternalTypeResolver : option TExternalTypeResolverFn)
| RequestClose
| RequestUpdate (changes : list TextDocumentContentChangeEvent) (version : Z).

Definition runRequest (textDocument : TextDocument) (maybeLocale : option string)
    (w : Workspace) (q : Request) : Workspace :=
  match q with
  | RequestLexerState => snd (getLexerState textDocument maybeLocale w)
  | RequestLexerSnapshot => snd (getTriedLexerSnapshot textDocument maybeLocale w)
  | RequestParse => snd (getTriedParse textDocument maybeLocale w)
  | RequestInspection p x => snd (getTriedInspection textDocument p maybeLocale x w)
  | RequestClose => close textDocument w
  | RequestUpdate c v => update textDocument c v w
  end.

Definition runRequests (textDocument : TextDocument) (maybeLocale : option string)
    (qs : list Request) (w : Workspace) : Workspace :=
  foldl (runRequest textDocument maybeLocale) w qs.

(** An item returned for the stage [requested] is sound when a success
    carries the requested tag, and a differing tag is an earlier stage's
    failure. *)
Definition stageSound (requested : CacheStageKind) (i : TCacheItem) : Prop :=
  (itemIsOk i = true → stage i = requested) ∧
  (stage i ≠ requested → itemIsErr i = true ∧ (stageRank (stage i) < stageRank requested)%nat).

(** The invariant behind [stageSound]: every stored item is sound for the
    stage of the map that holds it. *)
Definition stageInvariant (w : Workspace) : Prop :=
  map_Forall (λ _ i, stageSound LexerSnapshot i) (LexerSnapshotCache w) ∧
  map_Forall (λ _ i, stageSound Parser i) (ParserCache w) ∧
  map_Forall (λ _ positionCache, map_Forall (λ _ i, stageSound Inspection i) positionCache)
             (InspectionCache w).

(** The document has no entry in any of the four maps of [w'], whose log is
    that of [w]; and whichever getter is called next runs the lexer again. *)
Definition invalidated (textDocument : TextDocument) (w w' : Workspace) : Prop :=
  LexerStateCache w' !! uri textDocument = None ∧
  LexerSnapshotCache w' !! uri textDocument = None ∧
  ParserCache w' !! uri textDocument = None ∧
  InspectionCache w' !! uri textDocument = None ∧
  engineCalls w' = engineCalls w ∧
  (∀ l, let '(r, w'') := getLexerState textDocument l w' in
        r = lexerItemOf textDocument l ∧
        invocations TryLex (uri textDocument) (engineCalls w'') =
          S (invocations TryLex (uri textDocument) (engineCalls w))) ∧
  (∀ l, let '(r, w'') := getTriedLexerSnapshot textDocument l w' in
        r = snapshotItemOf textDocument l ∧
        invocations TryLex (uri textDocument) (engineCalls w'') =
          S (invocations TryLex (uri textDocument) (engineCalls w))) ∧
  (∀ l, let '(r, w'') := getTriedParse textDocument l w' in
        r = parserItemOf textDocument l ∧
        invocations TryLex (uri textDocument) (engineCalls w'') =
          S (invocations TryLex (uri textDocument) (engineCalls w))) ∧
  (∀ p l x, let '(r, w'') := getTriedInspection textDocument p l x w' in
        r = Some (inspectionItemOf textDocument l x (deref p)) ∧
        invocations TryLex (uri textDocument) (engineCalls w'') =
          S (invocations TryLex (uri textDocument) (engineCalls w))).

(** *** Vocabulary of the further properties *)

(** The document has no entry in any of the four maps. *)
Definition uncached (textDocument : TextDocument) (w : Workspace) : Prop :=
  LexerStateCache w !! uri textDocument = None ∧
  LexerSnapshotCache w !! uri textDocument = None ∧
  ParserCache w !! uri textDocument = None ∧
  InspectionCache w !! uri textDocument = None.

(** The two workspaces hold the same entries under the uri [u]. *)
Definition sameEntriesAt (u : string) (w w' : Workspace) : Prop :=
  LexerStateCache w' !! u = LexerStateCache w !! u ∧
  LexerSnapshotCache w' !! u = LexerSnapshotCache w !! u ∧
  ParserCache w' !! u = ParserCache w !! u ∧
  InspectionCache w' !! u = InspectionCache w !! u.

(** What each factory makes of the item of the stage before it. *)
Definition snapshotFrom (lexerCacheItem : LexerCacheItem) : TCacheItem :=
  match lexerCacheItem with
  | Err _ => LexerItem lexerCacheItem
  | Ok lexerState => LexerSnapshotItem (trySnapshot lexerState)
  end.

Definition parserFrom (maybeLocale : option string) (item : TCacheItem) : TCacheItem :=
  match item with
  | LexerSnapshotItem (Ok lexerSnapshot) =>
      ParserItem (tryParse (getSettings maybeLocale None) lexerSnapshot)
  | _ => item
  end.

Definition inspectionFrom (maybeLocale : option string)
    (maybeExternalTypeResolver : option TExternalTypeResolverFn) (position : Position)
    (item : TCacheItem) : TCacheItem :=
  match item with
  | ParserItem triedParse =>
      InspectionItem
        (tryInspection (getSettings maybeLocale maybeExternalTypeResolver) triedParse
           (mkInspectionPosition (character position) (line position)))
  | _ => item
  end.

(** The entries held under one uri hang together: a snapshot entry is made
    from the lexer entry, a parser entry from the snapshot entry, and every
    inspection entry from the parser entry. *)
Definition consistentEntries (lexerEntry : option LexerCacheItem)
    (snapshotEntry parserEntry : option TCacheItem)
    (inspectionEntry : option InspectionMap) : Prop :=
  (∀ s, snapshotEntry = Some s → ∃ lx, lexerEntry = Some lx ∧ s = snapshotFrom lx) ∧
  (∀ p, parserEntry = Some p → ∃ s l, snapshotEntry = Some s ∧ p = parserFrom l s) ∧
  (∀ pc, inspectionEntry = Some pc →
         ∃ p, parserEntry = Some p ∧
              map_Forall (λ _ i, ∃ l x pos, i = inspectionFrom l x pos p) pc).

Definition consistentAt (u : string) (w : Workspace) : Prop :=
  consistentEntries (LexerStateCache w !! u) (LexerSnapshotCache w !! u)
                    (ParserCache w !! u) (InspectionCache w !! u).

Definition pipelineConsistent (w : Workspace) : Prop := ∀ u, consistentAt u w.

End WithEngine.

Arguments readCache {E T} _ _.
Arguments writeCache {E T} _ _ _.

End WorkspaceCache.

(* ================================================================== *)
(** ** The JavaScript runtime: promises                               *)
(* ================================================================== *)

Module Js.

Definition JsError : Type := string.

(** A promise, by the state it settles in. *)
Inductive Promise (A : Type) : Type :=
| Fulfilled (value : A)
| Rejected (reason : JsError).
Arguments Fulfilled {A} _.
Arguments Rejected {A} _.

(** [p.catch(onRejected)] *)
Definition catch {A : Type} (p : Promise A) (onRejected : JsError -> A) : Promise A :=
  match p with
  | Fulfilled v => Fulfilled v
  | Rejected e => Fulfilled (onRejected e)
  end.

(** [array[i]] for a number [i] that holds an integer. *)
Definition arrayAt {A : Type} (l : list A) (i : Z) : option A :=
  if decide (0 ≤ i) then l !! Z.to_nat i else None.

Fixpoint allFilled {A : Type} (slots : list (option A)) : option (list A) :=
  match slots with
  | [] => Some []
  | None :: _ => None
  | Some v :: rest =>
      match allFilled rest with
      | Some vs => Some (v :: vs)
      | None => None
      end
  end.

(** [Promise.all]: the promises settle one at a time, in the order given by
    [settleOrder] (indices into the array; an index that never occurs is a
    promise that never settles).  A fulfilment fills the slot of its own
    index; the first rejection rejects the whole; once every slot is filled
    the whole fulfils with the values in array order.  [None] is a promise
    that stays pending. *)
Fixpoint allLoop {A : Type} (promises : list (Promise A)) (slots : list (option A))
    (settleOrder : list nat) : option (Promise (list A)) :=
  match allFilled slots with
  | Some values => Some (Fulfilled values)
  | None =>
      match settleOrder with
      | [] => None
      | i :: later =>
          match promises !! i with
          | None => allLoop promises slots later
          | Some (Rejected e) => Some (Rejected e)
          | Some (Fulfilled v) => allLoop promises (<[i := Some v]> slots) later
          end
      end
  end.

Definition Promise_all {A : Type} (settleOrder : list nat) (promises : list (Promise A))
  : option (Promise (list A)) :=
  allLoop promises (replicate (length promises) None) settleOrder.

(** A slot is either still empty or holds the value of its promise. *)
Definition slotsAgree {A : Type} (slots : list (option A)) (values : list A) : Prop :=
  Forall2 (λ slot v, slot = None ∨ slot = Some v) slots values.

End Js.

Import Js.

(* ================================================================== *)
(** ** providers.ts: the provider capability                          *)
(* ================================================================== *)

Module Providers.

Record CompletionItemProviderContext := mkCompletionContext {
  completion_range : option Range;
  completion_text : option string;
  completion_tokenKind : option LineTokenKind;
}.

Record HoverProviderContext := mkHoverContext {
  hover_range : Range;
  hover_identifier : string;
}.

Record SignatureProviderContext := mkSignatureContext {
  maybeArgumentOrdinal : option Z;
  maybeFunctionName : option string;
}.

(** The response types of the language server protocol and the sentinels of
    [LanguageServiceUtils]. *)
Class Responses := {
  CompletionItem : Type;
  Hover : Type;
  SignatureHelp : Type;
  InspectionOk : Type;
  InspectionError : Type;
  EmptyHover : Hover;
  EmptySignatureHelp : SignatureHelp;
}.

Section WithResponses.
Context `{R : Responses}.

(** Modelled from the spec: [LanguageServiceUtils.EmptyCompletionItems] is
    not among the sources; the completion sentinel is "an empty sequence". *)
Definition EmptyCompletionItems : list CompletionItem := [].

Definition TriedInspection : Type := Result InspectionOk InspectionError.

(** The [SymbolProvider] interface, for providers whose operations are
    [async] methods: each call hands back a promise, and an error raised
    while the operation runs settles that promise as rejected.  A provider
    whose call may throw before it returns a promise is
    [HostProviders.SymbolProvider]. *)
Record SymbolProvider := mkSymbolProvider {
  getCompletionItems : CompletionItemProviderContext -> Promise (list CompletionItem);
  getHover : HoverProviderContext -> Promise (option Hover);
  getSignatureHelp : SignatureProviderContext -> Promise (option SignatureHelp);
}.

End WithResponses.

End Providers.

Import Providers.

(* ================================================================== *)
(** ** analysis.ts                                                    *)
(* ================================================================== *)

Module Analysis.

Section Session.
Context `{R : Responses}.

Record AnalysisOptions := mkAnalysisOptions {
  opt_environmentSymbolProvider : option SymbolProvider;
  opt_librarySymbolProvider : option SymbolProvider;
}.

(** What [analysis.ts] imports from modules that are not among the sources:
    the two workspace-cache entry points it calls (with the signatures it
    calls them at), the inspection helper, and the provider classes. *)
Class Collaborators := {
  WorkspaceCache_getLexerState : TextDocument -> Lexer_State;
  WorkspaceCache_maybeTriedInspection : TextDocument -> Position -> option TriedInspection;
  InspectionUtils_maybeSignatureProviderContext : InspectionOk -> option SignatureProviderContext;
  KeywordProvider : option TriedInspection -> SymbolProvider;
  CurrentDocumentSymbolProvider : option TriedInspection -> SymbolProvider;
  NullLibrarySymbolProvider : SymbolProvider;
}.

Context `{C : Collaborators}.

Record DocumentAnalysis := mkDocumentAnalysis {
  maybeTriedInspection : option TriedInspection;
  environmentSymbolProvider : SymbolProvider;
  keywordProvider : SymbolProvider;
  librarySymbolProvider : SymbolProvider;
  localSymbolProvider : SymbolProvider;
  document : TextDocument;
  position : Position;
}.

Definition createAnalysisSession (document : TextDocument) (position : Position)
    (options : AnalysisOptions) : DocumentAnalysis :=
  let maybeTriedInspection := WorkspaceCache_maybeTriedInspection document position in
  mkDocumentAnalysis
    maybeTriedInspection
    (default NullLibrarySymbolProvider (opt_environmentSymbolProvider options))
    (KeywordProvider maybeTriedInspection)
    (default NullLibrarySymbolProvider (opt_librarySymbolProvider options))
    (CurrentDocumentSymbolProvider maybeTriedInspection)
    document position.

Definition getTokenRangeForPosition (token : LineToken) (cursorPosition : Position) : Range :=
  mkRange (mkPosition (line cursorPosition) (positionStart token))
          (mkPosition (line cursorPosition) (positionEnd token)).

Definition maybeLineTokensAt (document : TextDocument) (position : Position)
  : option (list LineToken) :=
  let lexResult := WorkspaceCache_getLexerState document in
  match arrayAt (lines lexResult) (line position) with
  | Some maybeLine => Some (tokens maybeLine)
  | None => None
  end.

(** The first loop of [maybeTokenAt]: the first token whose span holds the
    offset. *)
Fixpoint firstTokenSpanning (offset : Z) (lineTokens : list LineToken) : option LineToken :=
  match lineTokens with
  | [] => None
  | token :: rest =>
      if (positionStart token <=? offset) && (positionEnd token >=? offset)
      then Some token
      else firstTokenSpanning offset rest
  end.

(** The second loop: the first token that spans the offset and is an
    identifier, with the dot appended; a spanning token of another kind does
    not end the loop. *)
Fixpoint firstIdentifierSpanning (offset : Z) (lineTokens : list LineToken)
  : option LineToken :=
  match lineTokens with
  | [] => None
  | token :: rest =>
      if (positionStart token <=? offset) && (positionEnd token >=? offset)
      then
        if String.eqb (kind token) LineTokenKind_Identifier
        then Some (mkLineToken (kind token) (data token ++ ".")
                               (positionStart token) (positionEnd token + 1))
        else firstIdentifierSpanning offset rest
      else firstIdentifierSpanning offset rest
  end.

Definition maybeTokenAt (document : TextDocument) (position : Position) : option LineToken :=
  match maybeLineTokensAt document position with
  | None => None
  | Some lineTokens =>
      match firstTokenSpanning (character position) lineTokens with
      | Some token => Some token
      | None =>
          let currentRange :=
            mkRange (mkPosition (line position) (character position - 1)) position in
          if String.eqb (getText document (Some currentRange)) "."
          then firstIdentifierSpanning (character position - 1) lineTokens
          else None
      end
  end.

Definition maybeIdentifierAt (document : TextDocument) (position : Position)
  : option LineToken :=
  match maybeTokenAt document position with
  | Some token =>
      if String.eqb (kind token) LineTokenKind_Identifier then Some token else None
  | None => None
  end.

Definition completionContext (this : DocumentAnalysis) : CompletionItemProviderContext :=
  match maybeTokenAt (document this) (position this) with
  | Some maybeToken =>
      mkCompletionContext
        (Some (getTokenRangeForPosition maybeToken (position this)))
        (Some (data maybeToken))
        (Some (kind maybeToken))
  | None => mkCompletionContext None None None
  end.

(** The result of an [async] method is the promise it returns: [None] while
    it stays pending, otherwise the state it settles in.  An [await] of a
    rejected promise rejects the method. *)
Definition getCompletionItems (this : DocumentAnalysis) (settleOrder : list nat)
  : option (Promise (list CompletionItem)) :=
  let context := completionContext this in
  let getLibraryCompletionItems :=
    catch (Providers.getCompletionItems (librarySymbolProvider this) context)
          (λ _, EmptyCompletionItems) in
  let getKeywords :=
    catch (Providers.getCompletionItems (keywordProvider this) context)
          (λ _, EmptyCompletionItems) in
  let getEnvironmentCompletionItems :=
    catch (Providers.getCompletionItems (environmentSymbolProvider this) context)
          (λ _, EmptyCompletionItems) in
  let getLocalCompletionItems :=
    catch (Providers.getCompletionItems (localSymbolProvider this) context)
          (λ _, EmptyCompletionItems) in
  match Promise_all settleOrder
          [getLibraryCompletionItems; getKeywords;
           getEnvironmentCompletionItems; getLocalCompletionItems] with
  | None => None
  | Some (Rejected e) => Some (Rejected e)
  | Some (Fulfilled [libraryResponse; keywordResponse; environmentResponse; localResponse]) =>
      let completionItems := keywordResponse in
      Some (Fulfilled (completionItems ++ libraryResponse ++ environmentResponse ++ localResponse))
  | Some (Fulfilled _) => Some (Rejected "TypeError")
  end.

Definition getHover (this : DocumentAnalysis) (settleOrder : list nat)
  : option (Promise Hover) :=
  match maybeIdentifierAt (document this) (position this) with
  | Some identifierToken =>
      let context :=
        mkHoverContext (getTokenRangeForPosition identifierToken (position this))
                       (data identifierToken) in
      let getLibraryHover :=
        catch (Providers.getHover (librarySymbolProvider this) context) (λ _, None) in
      match Promise_all settleOrder [getLibraryHover] with
      | None => None
      | Some (Rejected e) => Some (Rejected e)
      | Some (Fulfilled [libraryResponse]) =>
          match libraryResponse with
          | Some hover => Some (Fulfilled hover)
          | None => Some (Fulfilled EmptyHover)
          end
      | Some (Fulfilled _) => Some (Rejected "TypeError")
      end
  | None => Some (Fulfilled EmptyHover)
  end.

Definition getSignatureHelp (this : DocumentAnalysis) (settleOrder : list nat)
  : option (Promise SignatureHelp) :=
  match WorkspaceCache_maybeTriedInspection (document this) (position this) with
  | None | Some (Err _) => Some (Fulfilled EmptySignatureHelp)
  | Some (Ok inspected) =>
      match InspectionUtils_maybeSignatureProviderContext inspected with
      | None => Some (Fulfilled EmptySignatureHelp)
      | Some context =>
          match maybeFunctionName context with
          | None => Some (Fulfilled EmptySignatureHelp)
          | Some _ =>
              let librarySignatureHelp :=
                catch (Providers.getSignatureHelp (librarySymbolProvider this) context) (λ _, None) in
              match Promise_all settleOrder [librarySignatureHelp] with
              | None => None
              | Some (Rejected e) => Some (Rejected e)
              | Some (Fulfilled [libraryResponse]) =>
                  Some (Fulfilled (default EmptySignatureHelp libraryResponse))
              | Some (Fulfilled _) => Some (Rejected "TypeError")
              end
          end
      end
  end.

(** *** Vocabulary of the properties *)

(** What a provider's completion promise contributes to the merged list:
    its items, or nothing when it is rejected. *)
Definition contribution (p : Promise (list CompletionItem)) : list CompletionItem :=
  match p with
  | Fulfilled items => items
  | Rejected _ => []
  end.

Definition keywordItems (this : DocumentAnalysis) : Promise (list CompletionItem) :=
  Providers.getCompletionItems (keywordProvider this) (completionContext this).

Definition libraryItems (this : DocumentAnalysis) : Promise (list CompletionItem) :=
  Providers.getCompletionItems (librarySymbolProvider this) (completionContext this).

Definition environmentItems (this : DocumentAnalysis) : Promise (list CompletionItem) :=
  Providers.getCompletionItems (environmentSymbolProvider this) (completionContext this).

Definition localItems (this : DocumentAnalysis) : Promise (list CompletionItem) :=
  Providers.getCompletionItems (localSymbolProvider this) (completionContext this).

(** The merged list, whenever [Promise.all] settles at all. *)
Definition mergedItems (this : DocumentAnalysis) : list CompletionItem :=
  contribution (keywordItems this) ++ contribution (libraryItems this) ++
  contribution (environmentItems this) ++ contribution (localItems this).

(** Every one of the first [n] promises handed to [Promise.all] settles. *)
Definition allSettle (n : nat) (settleOrder : list nat) : Prop :=
  ∀ i, (i < n)%nat → i ∈ settleOrder.

(** The position resolver in the words of the specification: the first token
    of the cursor's line whose span holds the cursor; failing that, when the
    character before the cursor is a dot, the identifier token that ends at
    the dot's position, with the dot appended and its end moved by one;
    otherwise nothing. *)
Definition spans (token : LineToken) (offset : Z) : bool :=
  (positionStart token <=? offset) && (offset <=? positionEnd token).

Definition isIdentifier (token : LineToken) : bool :=
  String.eqb (kind token) LineTokenKind_Identifier.

Definition dotBeforeCursor (document : TextDocument) (position : Position) : bool :=
  String.eqb
    (getText document
       (Some (mkRange (mkPosition (line position) (character position - 1)) position)))
    ".".

Definition withTrailingDot (token : LineToken) : LineToken :=
  mkLineToken (kind token) (data token ++ ".") (positionStart token) (positionEnd token + 1).

Definition resolveToken_spec (document : TextDocument) (position : Position)
  : option LineToken :=
  match arrayAt (lines (WorkspaceCache_getLexerState document)) (line position) with
  | None => None
  | Some cursorLine =>
      match List.find (λ token, spans token (character position)) (tokens cursorLine) with
      | Some token => Some token
      | None =>
          if dotBeforeCursor document position
          then withTrailingDot <$>
                 List.find (λ token, isIdentifier token &&
                                     (positionEnd token =? character position - 1))
                           (tokens cursorLine)
          else None
      end
  end.

(** Tokens as a lexer produces them: a span does not end before it starts. *)
Definition wellFormedTokens (document : TextDocument) (position : Position) : Prop :=
  ∀ lineTokens, maybeLineTokensAt document position = Some lineTokens →
                Forall (λ token, positionStart token ≤ positionEnd token) lineTokens.

End Session.

End Analysis.

(* ================================================================== *)
(** ** Concrete instances, for evaluating the embedding               *)
(* ================================================================== *)

Module Examples.

Import WorkspaceCache.

(** A small engine over strings: a text starting with [#] does not lex, a
    lexer state starting with [~] has no snapshot, a snapshot starting with
    an opening parenthesis does not parse; inspection works on any tried
    parse, as the real one does on the partial tree of a failed parse. *)
Definition toyEngine : Engine := {|
  LexerState := string;
  PQP.LexerSnapshot := string;
  ParseOk := string;
  PQP.Inspection := string;
  TLexError := string;
  TParseError := string;
  CommonError := string;
  TExternalTypeResolverFn := unit;
  DefaultSettings := mkSettings "en-US" None;
  tryLex := λ _ text,
    if String.prefix "#" text then Err "unexpected character" else Ok text;
  trySnapshot := λ lexerState,
    if String.prefix "~" lexerState then Err "unterminated string" else Ok lexerState;
  tryParse := λ _ lexerSnapshot,
    if String.prefix "(" lexerSnapshot then Err "expected closing parenthesis"
    else Ok lexerSnapshot;
  tryInspection := λ _ triedParse _,
    match triedParse with
    | Ok ast => Ok ast
    | Err _ => Ok "partial"
    end;
|}.

Definition clampOffset (text : string) (p : Position) : nat :=
  if line p <? 0 then 0%nat
  else if 0 <? line p then String.length text
  else Z.to_nat (Z.max 0 (Z.min (character p) (Z.of_nat (String.length text)))).

(** A one-line text document. *)
Definition documentOf (uri text : string) : TextDocument :=
  mkTextDocument uri (λ maybeRange,
    match maybeRange with
    | None => text
    | Some r =>
        let a := clampOffset text (range_start r) in
        let b := clampOffset text (range_end r) in
        String.substring a (b - a) text
    end).

Definition goodDocument : TextDocument := documentOf "file:///good.pq" "1 + 1".
Definition unlexableDocument : TextDocument := documentOf "file:///unlexable.pq" "#1".
Definition unparsableDocument : TextDocument := documentOf "file:///unparsable.pq" "(1".

Definition toyWorkspace : Type := @Workspace toyEngine.

(** Responses as plain strings, and collaborators for a document whose only
    line holds the identifier [Table] in columns 0 to 5. *)
Definition toyResponses : Responses := {|
  CompletionItem := string;
  Hover := string;
  SignatureHelp := string;
  InspectionOk := string;
  InspectionError := string;
  EmptyHover := "no hover";
  EmptySignatureHelp := "no signature";
|}.

Definition constantProvider (items : Promise (list string)) : @SymbolProvider toyResponses :=
  @mkSymbolProvider toyResponses (λ _, items) (λ _, Fulfilled None) (λ _, Fulfilled None).

Definition toyCollaborators : @Analysis.Collaborators toyResponses := {|
  Analysis.WorkspaceCache_getLexerState := λ _,
    mkLexerState [mkLine [mkLineToken LineTokenKind_Identifier "Table" 0 5]];
  Analysis.WorkspaceCache_maybeTriedInspection := λ _ _, None;
  Analysis.InspectionUtils_maybeSignatureProviderContext := λ _, None;
  Analysis.KeywordProvider := λ _, constantProvider (Fulfilled ["let"; "in"]);
  Analysis.CurrentDocumentSymbolProvider := λ _, constantProvider (Fulfilled ["x"]);
  Analysis.NullLibrarySymbolProvider := constantProvider (Fulfilled []);
|}.

Definition dottedDocument : TextDocument := documentOf "file:///dotted.pq" "Table.".

(** A session in which the library provider fails. *)
Definition failingLibrarySession : @Analysis.DocumentAnalysis toyResponses :=
  @Analysis.createAnalysisSession toyResponses toyCollaborators
    dottedDocument (mkPosition 0 6)
    (Analysis.mkAnalysisOptions (Some (constantProvider (Fulfilled ["Env.Value"])))
                                (Some (constantProvider (Rejected "library unavailable")))).

End Examples.

(* ================================================================== *)
(** ** testConstants.ts: the library of the tests                     *)
(* ================================================================== *)

Module TestConstants.

(** [TestLibraryName], a string enum. *)
Definition CreateFooAndBarRecord : string := "Test.CreateFooAndBarRecord".
Definition SquareIfNumber : string := "Test.SquareIfNumber".
Definition Number : string := "Test.Number".
Definition NumberOne : string := "Test.NumberOne".

(** A text in double quotes, as the literal [`"fooString"`] is. *)
Definition quoted (text : string) : string :=
  String (Ascii.ascii_of_nat 34) (text ++ String (Ascii.ascii_of_nat 34) EmptyString).

(** A parameter of a defined function type. *)
Record FunctionParameter (T : Type) := mkFunctionParameter {
  parameter_isNullable : bool;
  parameter_isOptional : bool;
  parameter_maybeType : option T;
  parameter_nameLiteral : string;
}.
Arguments mkFunctionParameter {T} _ _ _ _.

(** A parameter of a library function signature. *)
Record SignatureParameter (K : Type) := mkSignatureParameter {
  signature_isNullable : bool;
  signature_isOptional : bool;
  signature_label : string;
  signature_maybeDocumentation : option string;
  signatureLabelEnd : Z;
  signatureLabelOffset : Z;
  signature_typeKind : K;
}.
Arguments mkSignatureParameter {K} _ _ _ _ _ _ _.

Record Signature (K : Type) := mkSignature {
  signature_name : string;
  signature_parameters : list (SignatureParameter K);
}.
Arguments mkSignature {K} _ _.

(** What the file imports from the parser's [Type] and [TypeUtils] and from
    [LibraryUtils], none of which is among the sources: the type instances
    and factories, the two tests on a type, the number held by a number
    literal with the arithmetic done on it, the update
    [{...arg, literal, normalizedLiteral}] of a number literal, and the two
    constructors of library definitions. *)
Class TypeLibrary := {
  TType : Type;
  JsNumber : Type;
  TypeKind : Type;
  TLibraryDefinition : Type;
  FunctionInstance : TType;
  RecordInstance : TType;
  NumberInstance : TType;
  NoneInstance : TType;
  AnyInstance : TType;
  TypeKind_Number : TypeKind;
  numberLiteralFactory : bool -> string -> TType;
  textLiteralFactory : bool -> string -> TType;
  definedFunctionFactory : bool -> list (FunctionParameter TType) -> TType -> TType;
  definedRecordFactory : bool -> list (string * TType) -> bool -> TType;
  isNumberLiteral : TType -> bool;
  isNumber : TType -> bool;
  normalizedLiteral : TType -> JsNumber;
  timesTwo : JsNumber -> JsNumber;
  numberToString : JsNumber -> string;
  withLiteral : TType -> string -> JsNumber -> TType;
  createFunctionDefinition :
    TType -> string -> string -> TType -> list (Signature TypeKind) -> TLibraryDefinition;
  createConstantDefinition : TType -> string -> string -> TType -> TLibraryDefinition;
}.

Section WithTypes.
Context `{T : TypeLibrary}.

(** [ExternalType.TExternalTypeRequest], a union of two kinds. *)
Inductive TExternalTypeRequest :=
| Invocation (identifierLiteral : string) (args : list TType)
| Value (identifierLiteral : string).

Record ILibrary := mkLibrary {
  externalTypeResolver : TExternalTypeRequest -> option TType;
  libraryDefinitions : gmap string TLibraryDefinition;
}.

Definition SimpleLibraryDefinitions : gmap string TLibraryDefinition :=
  list_to_map [
    (CreateFooAndBarRecord,
     createFunctionDefinition FunctionInstance
       ("The name is " ++ CreateFooAndBarRecord) CreateFooAndBarRecord RecordInstance []);
    (Number,
     createConstantDefinition NumberInstance
       ("The name is " ++ Number) Number NumberInstance);
    (NumberOne,
     createConstantDefinition (numberLiteralFactory false "1")
       ("The name is " ++ NumberOne) NumberOne NumberInstance);
    (SquareIfNumber,
     createFunctionDefinition (numberLiteralFactory false "1")
       ("The name is " ++ SquareIfNumber) SquareIfNumber NumberInstance
       [mkSignature "x"
          [mkSignatureParameter false false "x" None (-1) (-1) TypeKind_Number]])
  ].

(** The two [switch] statements on the identifier; the [default] of the
    outer one is unreachable, a request being of one of the two kinds. *)
Definition SimpleExternalTypeResolver (request : TExternalTypeRequest) : option TType :=
  match request with
  | Invocation identifierLiteral args =>
      if decide (identifierLiteral = SquareIfNumber) then
        match args with
        | [arg] =>
            if isNumberLiteral arg then
              Some (withLiteral arg (numberToString (timesTwo (normalizedLiteral arg)))
                                (timesTwo (normalizedLiteral arg)))
            else if isNumber arg then Some NumberInstance
            else Some NoneInstance
        | _ => Some NoneInstance
        end
      else None
  | Value identifierLiteral =>
      if decide (identifierLiteral = CreateFooAndBarRecord) then
        Some (definedFunctionFactory false []
                (definedRecordFactory false
                   [("foo", textLiteralFactory false (quoted "fooString"));
                    ("bar", textLiteralFactory false (quoted "barString"))]
                   false))
      else if decide (identifierLiteral = Number) then Some NumberInstance
      else if decide (identifierLiteral = NumberOne) then
        Some (numberLiteralFactory false "1")
      else if decide (identifierLiteral = SquareIfNumber) then
        Some (definedFunctionFactory false [mkFunctionParameter false false None "x"]
                AnyInstance)
      else None
  end.

Definition SimpleLibrary : ILibrary :=
  mkLibrary SimpleExternalTypeResolver SimpleLibraryDefinitions.

End WithTypes.

End TestConstants.

(* ================================================================== *)
(** ** Further concrete instances                                     *)
(* ================================================================== *)

Module CoverageExamples.

Import Examples.

(** Collaborators for a document whose only line holds the keyword [let] in
    columns 0 to 3. *)
Definition keywordCollaborators : @Analysis.Collaborators toyResponses := {|
  Analysis.WorkspaceCache_getLexerState := λ _,
    mkLexerState [mkLine [mkLineToken "KeywordLet" "let" 0 3]];
  Analysis.WorkspaceCache_maybeTriedInspection := λ _ _, None;
  Analysis.InspectionUtils_maybeSignatureProviderContext := λ _, None;
  Analysis.KeywordProvider := λ _, constantProvider (Fulfilled ["let"; "in"]);
  Analysis.CurrentDocumentSymbolProvider := λ _, constantProvider (Fulfilled ["x"]);
  Analysis.NullLibrarySymbolProvider := constantProvider (Fulfilled []);
|}.

Definition keywordDocument : TextDocument := documentOf "file:///keyword.pq" "let".

(** A session with the cursor inside the keyword. *)
Definition keywordSession : @Analysis.DocumentAnalysis toyResponses :=
  @Analysis.createAnalysisSession toyResponses keywordCollaborators
    keywordDocument (mkPosition 0 2) (Analysis.mkAnalysisOptions None None).

(** A session with the cursor on a line the document does not have. *)
Definition strayCursorSession : @Analysis.DocumentAnalysis toyResponses :=
  @Analysis.createAnalysisSession toyResponses toyCollaborators
    dottedDocument (mkPosition 3 0) (Analysis.mkAnalysisOptions None None).

(** A second document under the uri of [goodDocument], with another text. *)
Definition editedDocument : TextDocument := documentOf "file:///good.pq" "#edited".

End CoverageExamples.

(* ================================================================== *)
(** ** analysis.ts with the providers a host may supply               *)
(* ================================================================== *)

(** The environment and library providers come from the host through
    [AnalysisOptions].  A method of such an object, when called, either
    returns (a promise, by its type) or throws; [.catch] is attached to the
    returned promise, so it sees a rejection and not a throw of the call
    itself. *)

Module HostProviders.

(** How the call of a function completes. *)
Inductive Completion (A : Type) : Type :=
| Returns (value : A)
| Throws (error : JsError).
Arguments Returns {A} _.
Arguments Throws {A} _.

Section WithResponses.
Context `{R : Responses}.

Record SymbolProvider := mkSymbolProvider {
  getCompletionItems :
    CompletionItemProviderContext -> Completion (Promise (list CompletionItem));
  getHover : HoverProviderContext -> Completion (Promise (option Hover));
  getSignatureHelp : SignatureProviderContext -> Completion (Promise (option SignatureHelp));
}.

(** A provider with [async] methods, seen as a host provider: its calls
    always return. *)
Definition ofAsync (provider : Providers.SymbolProvider) : SymbolProvider :=
  mkSymbolProvider
    (λ context, Returns (Providers.getCompletionItems provider context))
    (λ context, Returns (Providers.getHover provider context))
    (λ context, Returns (Providers.getSignatureHelp provider context)).

End WithResponses.

End HostProviders.

Import HostProviders.

Module HostAnalysis.

Section Session.
Context `{R : Responses} {C : Analysis.Collaborators}.

Record AnalysisOptions := mkAnalysisOptions {
  opt_environmentSymbolProvider : option HostProviders.SymbolProvider;
  opt_librarySymbolProvider : option HostProviders.SymbolProvider;
}.

Record DocumentAnalysis := mkDocumentAnalysis {
  maybeTriedInspection : option TriedInspection;
  environmentSymbolProvider : HostProviders.SymbolProvider;
  keywordProvider : HostProviders.SymbolProvider;
  librarySymbolProvider : HostProviders.SymbolProvider;
  localSymbolProvider : HostProviders.SymbolProvider;
  document : TextDocument;
  position : Position;
}.

(** The keyword, local and null providers are built by classes of the
    repository that are not among the sources; they enter as the
    collaborators give them. *)
Definition createAnalysisSession (document : TextDocument) (position : Position)
    (options : AnalysisOptions) : DocumentAnalysis :=
  let maybeTriedInspection :=
    Analysis.WorkspaceCache_maybeTriedInspection document position in
  mkDocumentAnalysis
    maybeTriedInspection
    (default (ofAsync Analysis.NullLibrarySymbolProvider)
             (opt_environmentSymbolProvider options))
    (ofAsync (Analysis.KeywordProvider maybeTriedInspection))
    (default (ofAsync Analysis.NullLibrarySymbolProvider)
             (opt_librarySymbolProvider options))
    (ofAsync (Analysis.CurrentDocumentSymbolProvider maybeTriedInspection))
    document position.

Definition completionContext (this : DocumentAnalysis) : CompletionItemProviderContext :=
  match Analysis.maybeTokenAt (document this) (position this) with
  | Some maybeToken =>
      mkCompletionContext
        (Some (Analysis.getTokenRangeForPosition maybeToken (position this)))
        (Some (data maybeToken))
        (Some (kind maybeToken))
  | None => mkCompletionContext None None None
  end.

(** The four provider calls are made in the order of the source: library,
    keyword, environment, local.  A call that throws ends the method there:
    the promise of the [async] method is rejected with what was thrown, and
    the calls after it are not made. *)
Definition getCompletionItems (this : DocumentAnalysis) (settleOrder : list nat)
  : option (Promise (list CompletionItem)) :=
  let context := completionContext this in
  match HostProviders.getCompletionItems (librarySymbolProvider this) context with
  | Throws e => Some (Rejected e)
  | Returns libraryPromise =>
  let getLibraryCompletionItems := catch libraryPromise (λ _, EmptyCompletionItems) in
  match HostProviders.getCompletionItems (keywordProvider this) context with
  | Throws e => Some (Rejected e)
  | Returns keywordPromise =>
  let getKeywords := catch keywordPromise (λ _, EmptyCompletionItems) in
  match HostProviders.getCompletionItems (environmentSymbolProvider this) context with
  | Throws e => Some (Rejected e)
  | Returns environmentPromise =>
  let getEnvironmentCompletionItems :=
    catch environmentPromise (λ _, EmptyCompletionItems) in
  match HostProviders.getCompletionItems (localSymbolProvider this) context with
  | Throws e => Some (Rejected e)
  | Returns localPromise =>
  let getLocalCompletionItems := catch localPromise (λ _, EmptyCompletionItems) in
  match Promise_all settleOrder
          [getLibraryCompletionItems; getKeywords;
           getEnvironmentCompletionItems; getLocalCompletionItems] with
  | None => None
  | Some (Rejected e) => Some (Rejected e)
  | Some (Fulfilled [libraryResponse; keywordResponse; environmentResponse; localResponse]) =>
      let completionItems := keywordResponse in
      Some (Fulfilled (completionItems ++ libraryResponse ++ environmentResponse ++ localResponse))
  | Some (Fulfilled _) => Some (Rejected "TypeError")
  end
  end end end end.

Definition getHover (this : DocumentAnalysis) (settleOrder : list nat)
  : option (Promise Hover) :=
  match Analysis.maybeIdentifierAt (document this) (position this) with
  | Some identifierToken =>
      let context :=
        mkHoverContext (Analysis.getTokenRangeForPosition identifierToken (position this))
                       (data identifierToken) in
      match HostProviders.getHover (librarySymbolProvider this) context with
      | Throws e => Some (Rejected e)
      | Returns libraryPromise =>
          let getLibraryHover := catch libraryPromise (λ _, None) in
          match Promise_all settleOrder [getLibraryHover] with
          | None => None
          | Some (Rejected e) => Some (Rejected e)
          | Some (Fulfilled [libraryResponse]) =>
              match libraryResponse with
              | Some hover => Some (Fulfilled hover)
              | None => Some (Fulfilled EmptyHover)
              end
          | Some (Fulfilled _) => Some (Rejected "TypeError")
          end
      end
  | None => Some (Fulfilled EmptyHover)
  end.

Definition getSignatureHelp (this : DocumentAnalysis) (settleOrder : list nat)
  : option (Promise SignatureHelp) :=
  match Analysis.WorkspaceCache_maybeTriedInspection (document this) (position this) with
  | None | Some (Err _) => Some (Fulfilled EmptySignatureHelp)
  | Some (Ok inspected) =>
      match Analysis.InspectionUtils_maybeSignatureProviderContext inspected with
      | None => Some (Fulfilled EmptySignatureHelp)
      | Some context =>
          match maybeFunctionName context with
          | None => Some (Fulfilled EmptySignatureHelp)
          | Some _ =>
              match HostProviders.getSignatureHelp (librarySymbolProvider this) context with
              | Throws e => Some (Rejected e)
              | Returns libraryPromise =>
                  let librarySignatureHelp := catch libraryPromise (λ _, None) in
                  match Promise_all settleOrder [librarySignatureHelp] with
                  | None => None
                  | Some (Rejected e) => Some (Rejected e)
                  | Some (Fulfilled [libraryResponse]) =>
                      Some (Fulfilled (default EmptySignatureHelp libraryResponse))
                  | Some (Fulfilled _) => Some (Rejected "TypeError")
                  end
              end
          end
      end
  end.

(** *** Vocabulary of the properties *)

(** A session over [async] providers, seen as a session over host
    providers. *)
Definition ofAsyncSession (this : Analysis.DocumentAnalysis) : DocumentAnalysis :=
  mkDocumentAnalysis
    (Analysis.maybeTriedInspection this)
    (ofAsync (Analysis.environmentSymbolProvider this))
    (ofAsync (Analysis.keywordProvider this))
    (ofAsync (Analysis.librarySymbolProvider this))
    (ofAsync (Analysis.localSymbolProvider this))
    (Analysis.document this) (Analysis.position this).

Definition libraryCall (this : DocumentAnalysis)
  : Completion (Promise (list CompletionItem)) :=
  HostProviders.getCompletionItems (librarySymbolProvider this) (completionContext this).

Definition keywordCall (this : DocumentAnalysis)
  : Completion (Promise (list CompletionItem)) :=
  HostProviders.getCompletionItems (keywordProvider this) (completionContext this).

Definition environmentCall (this : DocumentAnalysis)
  : Completion (Promise (list CompletionItem)) :=
  HostProviders.getCompletionItems (environmentSymbolProvider this) (completionContext this).

Definition localCall (this : DocumentAnalysis)
  : Completion (Promise (list CompletionItem)) :=
  HostProviders.getCompletionItems (localSymbolProvider this) (completionContext this).

(** What a provider call contributes to the merged list: the items its
    promise fulfils with, and nothing when the promise is rejected. *)
Definition promisedItems (call : Completion (Promise (list CompletionItem)))
  : list CompletionItem :=
  match call with
  | Returns promise => Analysis.contribution promise
  | Throws _ => []
  end.

Definition mergedItems (this : DocumentAnalysis) : list CompletionItem :=
  promisedItems (keywordCall this) ++ promisedItems (libraryCall this) ++
  promisedItems (environmentCall this) ++ promisedItems (localCall this).

(** What the first of a sequence of calls to throw has thrown. *)
Fixpoint firstThrown {A : Type} (calls : list (Completion A)) : option JsError :=
  match calls with
  | [] => None
  | Throws e :: _ => Some e
  | Returns _ :: later => firstThrown later
  end.

(** What a public operation's provider calls throw, if one of them does. *)
Definition completionThrown (this : DocumentAnalysis) : option JsError :=
  firstThrown [libraryCall this; keywordCall this; environmentCall this; localCall this].

Definition hoverCall (this : DocumentAnalysis)
  : option (Completion (Promise (option Hover))) :=
  match Analysis.maybeIdentifierAt (document this) (position this) with
  | Some identifierToken =>
      Some (HostProviders.getHover (librarySymbolProvider this)
              (mkHoverContext
                 (Analysis.getTokenRangeForPosition identifierToken (position this))
                 (data identifierToken)))
  | None => None
  end.

Definition signatureCall (this : DocumentAnalysis)
  : option (Completion (Promise (option SignatureHelp))) :=
  match Analysis.WorkspaceCache_maybeTriedInspection (document this) (position this) with
  | Some (Ok inspected) =>
      match Analysis.InspectionUtils_maybeSignatureProviderContext inspected with
      | Some context =>
          match maybeFunctionName context with
          | Some _ =>
              Some (HostProviders.getSignatureHelp (librarySymbolProvider this) context)
          | None => None
          end
      | None => None
      end
  | _ => None
  end.

Definition hoverThrown (this : DocumentAnalysis) : option JsError :=
  firstThrown (option_list (hoverCall this)).

Definition signatureThrown (this : DocumentAnalysis) : option JsError :=
  firstThrown (option_list (signatureCall this)).

End Session.

End HostAnalysis.

Module HostExamples.

Import Examples.

(** A provider every call of which throws. *)
Definition throwingProvider : @HostProviders.SymbolProvider toyResponses :=
  @HostProviders.mkSymbolProvider toyResponses
    (λ _, Throws "provider crashed") (λ _, Throws "provider crashed")
    (λ _, Throws "provider crashed").

(** A session, with the cursor after [Table.], whose library provider is the
    throwing one. *)
Definition throwingLibrarySession : @HostAnalysis.DocumentAnalysis toyResponses :=
  @HostAnalysis.createAnalysisSession toyResponses toyCollaborators
    dottedDocument (mkPosition 0 6)
    (HostAnalysis.mkAnalysisOptions
       (Some (ofAsync (constantProvider (Fulfilled ["Env.Value"]))))
       (Some throwingProvider)).


End HostExamples.

(* ================================================================== *)
(** * Properties of the workspace cache                               *)
(* ================================================================== *)

Import WorkspaceCache.

Section CacheProperties.
Context `{E : Engine}.

Lemma invocations_app f u (l1 l2 : list EngineCall) :
  invocations f u (l1 ++ l2) = (invocations f u l1 + invocations f u l2)%nat.
Proof. unfold invocations. by rewrite filter_app, length_app. Qed.

Lemma invocations_one f u g v :
  invocations f u [mkCall g v] = if decide (mkCall g v = mkCall f u) then 1%nat else 0%nat.
Proof.
  unfold invocations. rewrite filter_cons, filter_nil.
  by destruct (decide (mkCall g v = mkCall f u)).
Qed.

(** Unfolds the getters down to map lookups and engine results. *)
Ltac unfold_getters :=
  unfold runGetter, stageReached, isCached, getTriedInspection, createTriedInspection,
    getTriedParse, createParserCacheItem, getTriedLexerSnapshot,
    createLexerSnapshotCacheItem, getLexerState, createLexerCacheItem,
    getOrCreate, logCall, setInspectionCache in *;
  cbn [readCache writeCache LexerStateCacheRef LexerSnapshotCacheRef ParserCacheRef
       LexerStateCache LexerSnapshotCache ParserCache InspectionCache engineCalls
       fst snd] in *.

Ltac count_calls :=
  cbn [engineCalls];
  repeat rewrite invocations_app; repeat rewrite invocations_one;
  repeat case_decide; simplify_eq; try lia.

(** *** The guards of the factories *)

(** [createParserCacheItem] runs the parser exactly when its guard
    [stage !== LexerSnapshot || isErr(item)] is false. *)
Lemma parser_guard (i : TCacheItem) :
  negb (bool_decide (stage i = LexerSnapshot)) || itemIsErr i = false
  ↔ ∃ lexerSnapshot, i = LexerSnapshotItem (Ok lexerSnapshot).
Proof.
  split.
  - destruct i as [r|[snapshot|e]|r|r]; cbn; try done. eauto.
  - by intros [snapshot ->].
Qed.

(** [createTriedInspection] runs the inspection exactly when its guard
    [stage !== Parser] is false, whatever the outcome of the parse. *)
Lemma inspection_guard (i : TCacheItem) :
  negb (bool_decide (stage i = Parser)) = false ↔ ∃ triedParse, i = ParserItem triedParse.
Proof.
  split.
  - destruct i as [r|r|r|r]; cbn; try done. eauto.
  - by intros [r ->].
Qed.

(** After [getOrCreate] the returned value is the entry of the document. *)
Lemma getOrCreate_stored {T} (cache : CacheRef T) d l f w :
  (∀ m w0, readCache cache (writeCache cache m w0) = m) →
  readCache cache (getOrCreate cache d l f w).2 !! uri d = Some (getOrCreate cache d l f w).1.
Proof.
  intros Hlens. unfold getOrCreate.
  destruct (readCache cache w !! uri d) as [v|] eqn:Hw; [done|].
  destruct (f d l w) as [v w1]. cbn. by rewrite Hlens, lookup_insert_eq.
Qed.

(** A hit returns the entry and leaves the workspace as it is, whatever the
    locale and the factory. *)
Lemma getOrCreate_hit {T} (cache : CacheRef T) d l f w v :
  readCache cache w !! uri d = Some v → getOrCreate cache d l f w = (v, w).
Proof. intros Hw. unfold getOrCreate. by rewrite Hw. Qed.






(** *** The getters on a coherent workspace *)

Lemma coherent_stored d l (w w2 : Workspace) :
  coherent d l w →
  (LexerStateCache w2 = LexerStateCache w ∨
   LexerStateCache w2 = <[uri d := lexerItemOf d l]> (LexerStateCache w)) →
  (LexerSnapshotCache w2 = LexerSnapshotCache w ∨
   LexerSnapshotCache w2 = <[uri d := snapshotItemOf d l]> (LexerSnapshotCache w)) →
  (ParserCache w2 = ParserCache w ∨
   ParserCache w2 = <[uri d := parserItemOf d l]> (ParserCache w)) →
  coherent d l w2.
Proof.
  unfold coherent. intros (Hlex & Hsnap & Hparse) [-> | ->] [-> | ->] [-> | ->].
  all: repeat split; try done.
  all: intros i; rewrite lookup_insert_eq; congruence.
Qed.

Lemma getLexerState_coherent d l w :
  coherent d l w →
  ∃ w', getLexerState d l w = (lexerItemOf d l, w') ∧ coherent d l w' ∧
        InspectionCache w' = InspectionCache w ∧
        ∀ f, mayRun d l f = false →
             invocations f (uri d) (engineCalls w') = invocations f (uri d) (engineCalls w).
Proof.
  intros Hco. pose proof Hco as (Hlex & _ & _).
  unfold getLexerState, getOrCreate. cbn.
  destruct (LexerStateCache w !! uri d) as [r|] eqn:Hw.
  - rewrite (Hlex r eq_refl). by exists w.
  - eexists. split; [reflexivity|]. cbn. split_and!; [|done|].
    + apply (coherent_stored d l w); cbn; auto.
    + intros f Hf. count_calls.
Qed.

Lemma getTriedLexerSnapshot_coherent d l w :
  coherent d l w →
  ∃ w', getTriedLexerSnapshot d l w = (snapshotItemOf d l, w') ∧ coherent d l w' ∧
        InspectionCache w' = InspectionCache w ∧
        ∀ f, mayRun d l f = false →
             invocations f (uri d) (engineCalls w') = invocations f (uri d) (engineCalls w).
Proof.
  intros Hco. unfold getTriedLexerSnapshot, getOrCreate. cbn.
  destruct (LexerSnapshotCache w !! uri d) as [i|] eqn:Hw.
  - pose proof Hco as (_ & Hsnap & _). rewrite (Hsnap i Hw). by exists w.
  - unfold createLexerSnapshotCacheItem.
    destruct (getLexerState_coherent d l w Hco) as (w1 & -> & Hco1 & Hins & Hcalls).
    assert (∀ w2 : Workspace,
      LexerStateCache w2 = LexerStateCache w1 →
      LexerSnapshotCache w2 = <[uri d := snapshotItemOf d l]> (LexerSnapshotCache w1) →
      ParserCache w2 = ParserCache w1 →
      coherent d l w2) as Hstore.
    { intros w2 H1 H2 H3. apply (coherent_stored d l w1); auto. }
    unfold snapshotItemOf in *.
    destruct (lexerItemOf d l) as [lexerState|e] eqn:Hl; cbn.
    all: eexists; split; [reflexivity|]; cbn.
    all: split; [by apply Hstore|].
    all: split; [done|].
    all: intros f Hf; rewrite ?invocations_app, Hcalls by done; try done.
    rewrite invocations_one. case_decide; [|lia]. simplify_eq. cbn in Hf. by rewrite Hl in Hf.
Qed.

Lemma getTriedParse_coherent d l w :
  coherent d l w →
  ∃ w', getTriedParse d l w = (parserItemOf d l, w') ∧ coherent d l w' ∧
        InspectionCache w' = InspectionCache w ∧
        ∀ f, mayRun d l f = false →
             invocations f (uri d) (engineCalls w') = invocations f (uri d) (engineCalls w).
Proof.
  intros Hco. unfold getTriedParse, getOrCreate. cbn.
  destruct (ParserCache w !! uri d) as [i|] eqn:Hw.
  - pose proof Hco as (_ & _ & Hparse). rewrite (Hparse i Hw). by exists w.
  - unfold createParserCacheItem.
    destruct (getTriedLexerSnapshot_coherent d l w Hco) as (w1 & -> & Hco1 & Hins & Hcalls).
    assert (∀ w2 : Workspace,
      LexerStateCache w2 = LexerStateCache w1 →
      LexerSnapshotCache w2 = LexerSnapshotCache w1 →
      ParserCache w2 = <[uri d := parserItemOf d l]> (ParserCache w1) →
      coherent d l w2) as Hstore.
    { intros w2 H1 H2 H3. apply (coherent_stored d l w1); auto. }
    unfold parserItemOf in *.
    destruct (snapshotItemOf d l) as [r|[snapshot|e]|r|r] eqn:Hs; cbn.
    all: eexists; split; [reflexivity|]; cbn.
    all: split; [by apply Hstore|].
    all: split; [done|].
    all: intros f Hf; rewrite ?invocations_app, Hcalls by done; try done.
    rewrite invocations_one. case_decide; [|lia]. simplify_eq. cbn in Hf. by rewrite Hs in Hf.
Qed.

(** The getters below the inspection never run the inspection. *)
Lemma getTriedParse_no_inspection d l w u :
  invocations TryInspection u (engineCalls (getTriedParse d l w).2)
  = invocations TryInspection u (engineCalls w).
Proof. unfold_getters; repeat case_match; simplify_eq/=; count_calls. Qed.

Lemma coherent_setInspectionCache d l m w :
  coherent d l (setInspectionCache m w) ↔ coherent d l w.
Proof. done. Qed.

Lemma getTriedInspection_hit d p l x w positionCache i :
  InspectionCache w !! uri d = Some positionCache →
  positionCache !! addr p = Some i →
  getTriedInspection d p l x w = (Some i, w).
Proof. intros Hw Hp. unfold getTriedInspection. by rewrite Hw, Hp. Qed.

Lemma positionCached_false d p w :
  positionCached d p w = false →
  default ∅ (InspectionCache w !! uri d) !! addr p = None.
Proof.
  unfold positionCached. destruct (InspectionCache w !! uri d) as [pc|]; cbn; [|done].
  intros H%bool_decide_eq_false. by apply eq_None_not_Some.
Qed.

Lemma getTriedInspection_miss d p l x w :
  coherent d l w →
  positionCached d p w = false →
  ∃ w', getTriedInspection d p l x w = (Some (inspectionItemOf d l x (deref p)), w') ∧
        coherent d l w' ∧
        InspectionCache w' =
          <[uri d := <[addr p := inspectionItemOf d l x (deref p)]>
                       (default ∅ (InspectionCache w !! uri d))]> (InspectionCache w) ∧
        (∀ f, mayRun d l f = false →
              invocations f (uri d) (engineCalls w') = invocations f (uri d) (engineCalls w)) ∧
        invocations TryInspection (uri d) (engineCalls w')
        = (invocations TryInspection (uri d) (engineCalls w)
           + if mayRun d l TryInspection then 1 else 0)%nat.
Proof.
  intros Hco Hmiss%positionCached_false. unfold getTriedInspection.
  set (w1 := match InspectionCache w !! uri d with
             | Some _ => w
             | None => setInspectionCache (<[uri d := ∅]> (InspectionCache w)) w
             end).
  assert (coherent d l w1) as Hco1 by (subst w1; by case_match).
  assert (engineCalls w1 = engineCalls w) as Hlog1 by (subst w1; by case_match).
  assert (<[uri d := <[addr p := inspectionItemOf d l x (deref p)]>
                       (default ∅ (InspectionCache w !! uri d))]> (InspectionCache w1)
          = <[uri d := <[addr p := inspectionItemOf d l x (deref p)]>
                       (default ∅ (InspectionCache w !! uri d))]> (InspectionCache w)) as Hic1.
  { subst w1. case_match; [done|]. cbn. by rewrite insert_insert_eq. }
  assert ((let '(positionCache, w1) :=
             match InspectionCache w !! uri d with
             | Some positionCache => (positionCache, w)
             | None => (∅, setInspectionCache (<[uri d:=∅]> (InspectionCache w)) w)
             end in
           match positionCache !! addr p with
           | Some item => (Some item, w1)
           | None =>
               let '(value, w2) := createTriedInspection d (deref p) l x w1 in
               (Some value,
                setInspectionCache
                  (<[uri d:=<[addr p:=value]> positionCache]> (InspectionCache w2)) w2)
           end)
          = (let '(value, w2) := createTriedInspection d (deref p) l x w1 in
               (Some value,
                setInspectionCache
                  (<[uri d:=<[addr p:=value]> (default ∅ (InspectionCache w !! uri d))]>
                     (InspectionCache w2)) w2))) as ->.
  { subst w1. destruct (InspectionCache w !! uri d) as [pc|]; cbn in *; by rewrite Hmiss. }
  unfold createTriedInspection.
  pose proof (getTriedParse_no_inspection d l w1 (uri d)) as Hnoinsp.
  destruct (getTriedParse_coherent d l w1 Hco1) as (w2 & Hparse & Hco2 & Hins & Hcalls).
  rewrite Hparse in *. cbn [snd] in Hnoinsp.
  unfold inspectionItemOf in *. cbn [mayRun].
  destruct (parserItemOf d l) as [r|r|r|r] eqn:Hp; cbn.
  all: eexists; split; [reflexivity|]; cbn.
  all: split; [done|].
  all: split; [by rewrite Hins, Hic1|].
  all: rewrite ?invocations_app, Hnoinsp, Hlog1.
  all: split; [|rewrite ?invocations_one; try case_decide; try done; lia].
  all: intros f Hf; rewrite ?invocations_app, Hcalls, Hlog1 by done; try done.
  rewrite invocations_one. case_decide; [|lia]. simplify_eq. cbn in Hf. by rewrite Hp in Hf.
Qed.

Lemma getTriedInspection_coherent d p l x w :
  coherent d l w →
  coherent d l (getTriedInspection d p l x w).2 ∧
  ∀ f, mayRun d l f = false →
       invocations f (uri d) (engineCalls (getTriedInspection d p l x w).2)
       = invocations f (uri d) (engineCalls w).
Proof.
  intros Hco. destruct (positionCached d p w) eqn:Hp.
  - unfold positionCached in Hp.
    destruct (InspectionCache w !! uri d) as [pc|] eqn:Hw; [|done].
    apply bool_decide_eq_true in Hp as [i Hi].
    by rewrite (getTriedInspection_hit d p l x w pc i).
  - destruct (getTriedInspection_miss d p l x w Hco Hp) as (w' & -> & ? & _ & ? & _).
    done.
Qed.

Lemma close_coherent d l w : coherent d l (close d w).
Proof.
  unfold coherent, close. cbn. rewrite !lookup_delete_eq. by repeat split.
Qed.

Lemma runRequest_quiet d l q w :
  coherent d l w →
  coherent d l (runRequest d l w q) ∧
  ∀ f, mayRun d l f = false →
       invocations f (uri d) (engineCalls (runRequest d l w q))
       = invocations f (uri d) (engineCalls w).
Proof.
  intros Hco. destruct q; cbn [runRequest].
  - by destruct (getLexerState_coherent d l w Hco) as (w' & -> & ? & _ & ?).
  - by destruct (getTriedLexerSnapshot_coherent d l w Hco) as (w' & -> & ? & _ & ?).
  - by destruct (getTriedParse_coherent d l w Hco) as (w' & -> & ? & _ & ?).
  - by apply getTriedInspection_coherent.
  - split; [apply close_coherent|done].
  - split; [apply close_coherent|done].
Qed.

Lemma runRequests_quiet d l qs w :
  coherent d l w →
  coherent d l (runRequests d l qs w) ∧
  ∀ f, mayRun d l f = false →
       invocations f (uri d) (engineCalls (runRequests d l qs w))
       = invocations f (uri d) (engineCalls w).
Proof.
  unfold runRequests. revert w. induction qs as [|q qs IH]; intros w Hco; [done|].
  cbn [foldl]. destruct (runRequest_quiet d l q w Hco) as [Hco1 Hq].
  destruct (IH _ Hco1) as [Hco2 Hqs]. split; [done|].
  intros f Hf. by rewrite Hqs, Hq.
Qed.

Lemma emptyWorkspace_coherent d l : coherent d l emptyWorkspace.
Proof. by repeat split. Qed.

(** C2: when [tryLex] fails for a document, [getTriedParse] returns that
    very failure, still tagged [Lexer]; and however many requests for the
    document came before, none of them nor this call ever invoked
    [trySnapshot], [tryParse] (or [tryInspection]) for it. *)
Theorem lexer_failure_short_circuits d l e qs w :
  coherent d l w →
  lexerItemOf d l = Err e →
  let '(r, w') := getTriedParse d l (runRequests d l qs w) in
  r = LexerItem (Err e) ∧ stage r = Lexer ∧
  ∀ f, f ≠ TryLex →
       invocations f (uri d) (engineCalls w') = invocations f (uri d) (engineCalls w).
Proof.
  intros Hco Hlex.
  destruct (runRequests_quiet d l qs w Hco) as [Hco1 Hqs].
  destruct (getTriedParse_coherent d l _ Hco1) as (w' & -> & _ & _ & Hcalls).
  assert (parserItemOf d l = LexerItem (Err e)) as ->.
  { unfold parserItemOf, snapshotItemOf. by rewrite Hlex. }
  repeat split. intros f Hf.
  assert (mayRun d l f = false) as Hquiet.
  { destruct f; [done|..]; cbn; unfold parserItemOf, snapshotItemOf; by rewrite Hlex. }
  by rewrite Hcalls, Hqs.
Qed.

(** *** The stage invariant *)

Lemma stageSound_own (i : TCacheItem) k : stage i = k → stageSound k i.
Proof. intros <-. by split. Qed.

Lemma stageSound_later (i : TCacheItem) k k' :
  stageSound k i → itemIsErr i = true → (stageRank k < stageRank k')%nat → stageSound k' i.
Proof.
  intros [Hok Hup] Herr Hlt. split.
  - unfold itemIsOk. by rewrite Herr.
  - intros _. split; [done|].
    destruct (decide (stage i = k)) as [->|Hne]; [done|].
    destruct (Hup Hne) as [_ ?]. lia.
Qed.

Lemma emptyWorkspace_stageInvariant : stageInvariant emptyWorkspace.
Proof. unfold stageInvariant. split_and!; apply map_Forall_empty. Qed.

Lemma getLexerState_stageInvariant d l w :
  stageInvariant w → stageInvariant (getLexerState d l w).2.
Proof. intros Hinv. unfold getLexerState, getOrCreate. cbn. by case_match. Qed.

Lemma getTriedLexerSnapshot_sound d l w :
  stageInvariant w →
  stageSound LexerSnapshot (getTriedLexerSnapshot d l w).1 ∧
  stageInvariant (getTriedLexerSnapshot d l w).2.
Proof.
  intros Hinv. unfold getTriedLexerSnapshot, getOrCreate. cbn.
  destruct (LexerSnapshotCache w !! uri d) as [i|] eqn:Hw; cbn.
  - split; [|done]. destruct Hinv as (Hs & _ & _). by apply (Hs _ _ Hw).
  - unfold createLexerSnapshotCacheItem.
    pose proof (getLexerState_stageInvariant d l w Hinv) as Hinv1.
    destruct (getLexerState d l w) as [r w1]. cbn in Hinv1.
    destruct Hinv1 as (Hs & Hp & Hi).
    assert (stageSound LexerSnapshot
              match r with
              | Ok lexerState => LexerSnapshotItem (trySnapshot lexerState)
              | Err _ => LexerItem r
              end) as Hsound.
    { destruct r; [by apply stageSound_own|].
      split; [done|]. intros _. cbn. split; [done|lia]. }
    destruct r; cbn in *.
    all: split; [done|]; split_and!; cbn; try done; by apply map_Forall_insert_2.
Qed.

Lemma getTriedParse_sound d l w :
  stageInvariant w →
  stageSound Parser (getTriedParse d l w).1 ∧
  stageInvariant (getTriedParse d l w).2.
Proof.
  intros Hinv. unfold getTriedParse, getOrCreate. cbn.
  destruct (ParserCache w !! uri d) as [i|] eqn:Hw; cbn.
  - split; [|done]. destruct Hinv as (_ & Hp & _). by apply (Hp _ _ Hw).
  - unfold createParserCacheItem.
    destruct (getTriedLexerSnapshot_sound d l w Hinv) as [Hsnap Hinv1].
    destruct (getTriedLexerSnapshot d l w) as [i w1]. cbn in Hsnap, Hinv1.
    destruct Hinv1 as (Hs & Hp & Hi).
    assert (stageSound Parser
              match i with
              | LexerSnapshotItem (Ok lexerSnapshot) =>
                  ParserItem (tryParse (getSettings l None) lexerSnapshot)
              | _ => i
              end) as Hsound.
    { destruct i as [r|[snapshot|e]|r|r]; try by apply stageSound_own.
      - apply (stageSound_later _ LexerSnapshot); [done| |cbn; lia].
        by apply Hsnap.
      - apply (stageSound_later _ LexerSnapshot); [done|done|cbn; lia].
      - destruct Hsnap as [_ Hup]. destruct Hup as [_ Hlt]; [done|]. cbn in Hlt. lia. }
    destruct i as [r|[snapshot|e]|r|r]; cbn in *.
    all: split; [done|]; split_and!; cbn; try done; by apply map_Forall_insert_2.
Qed.

Lemma createTriedInspection_sound d p l x w :
  stageInvariant w →
  stageSound Inspection (createTriedInspection d p l x w).1 ∧
  stageInvariant (createTriedInspection d p l x w).2.
Proof.
  intros Hinv. unfold createTriedInspection.
  destruct (getTriedParse_sound d l w Hinv) as [Hparse Hinv1].
  destruct (getTriedParse d l w) as [i w1]. cbn in Hparse, Hinv1.
  destruct i as [r|r|r|r]; cbn; (split; [|done]).
  - apply (stageSound_later _ Parser); [done| |cbn; lia]. by apply Hparse.
  - apply (stageSound_later _ Parser); [done| |cbn; lia]. by apply Hparse.
  - by apply stageSound_own.
  - by apply stageSound_own.
Qed.

Lemma getTriedInspection_sound d p l x w :
  stageInvariant w →
  (∀ i, (getTriedInspection d p l x w).1 = Some i → stageSound Inspection i) ∧
  stageInvariant (getTriedInspection d p l x w).2.
Proof.
  intros Hinv. unfold getTriedInspection.
  set (start := match InspectionCache w !! uri d with
                | Some positionCache => (positionCache, w)
                | None => (∅, setInspectionCache (<[uri d := ∅]> (InspectionCache w)) w)
                end).
  assert (map_Forall (λ _ i, stageSound Inspection i) start.1 ∧ stageInvariant start.2)
    as [Hpc Hinv1].
  { subst start. destruct Hinv as (Hs & Hp & Hi).
    destruct (InspectionCache w !! uri d) as [pc|] eqn:Hw; cbn.
    - split; [|done]. by apply (Hi _ _ Hw).
    - split; [apply map_Forall_empty|]. split_and!; try done.
      cbn. apply map_Forall_insert_2; [apply map_Forall_empty|done]. }
  destruct start as [positionCache w1]. cbn in Hpc, Hinv1.
  destruct (positionCache !! addr p) as [i|] eqn:Hp; cbn.
  - split; [|done]. intros ? [= <-]. by apply (Hpc _ _ Hp).
  - destruct (createTriedInspection_sound d (deref p) l x w1 Hinv1) as [Hsound Hinv2].
    destruct (createTriedInspection d (deref p) l x w1) as [value w2]. cbn in *.
    split; [by intros ? [= <-]|].
    destruct Hinv2 as (Hs & Hpa & Hi). split_and!; try done. cbn.
    apply map_Forall_insert_2; [|done]. by apply map_Forall_insert_2.
Qed.

Lemma close_stageInvariant d w : stageInvariant w → stageInvariant (close d w).
Proof.
  intros (Hs & Hp & Hi). unfold close. split_and!; cbn; by apply map_Forall_delete.
Qed.

Lemma reachable_stageInvariant w : reachable w → stageInvariant w.
Proof.
  induction 1.
  - apply emptyWorkspace_stageInvariant.
  - by apply getLexerState_stageInvariant.
  - by apply getTriedLexerSnapshot_sound.
  - by apply getTriedParse_sound.
  - by apply getTriedInspection_sound.
  - by apply close_stageInvariant.
  - by apply close_stageInvariant.
Qed.

(** C10: in every workspace the public operations can produce, the item
    returned by [getTriedLexerSnapshot], [getTriedParse] or
    [getTriedInspection] is sound for the requested stage: a success carries
    the requested tag, and an item with another tag is the failure of an
    earlier stage. *)
Theorem returned_items_stage_sound w d l p x :
  reachable w →
  stageSound LexerSnapshot (getTriedLexerSnapshot d l w).1 ∧
  stageSound Parser (getTriedParse d l w).1 ∧
  (∀ i, (getTriedInspection d p l x w).1 = Some i → stageSound Inspection i).
Proof.
  intros Hinv%reachable_stageInvariant. split_and!.
  - by apply getTriedLexerSnapshot_sound.
  - by apply getTriedParse_sound.
  - by apply getTriedInspection_sound.
Qed.

(** *** Inspection *)

(** C3, as amended: [getTriedInspection] invokes [tryInspection] only when
    the parser stage was reached for the document, and then it does so on the
    tried parse whether that is a success or a failure; only when an earlier
    stage (lexer or snapshot) failed does it return that failure directly,
    without invoking the inspection engine.  A position that is already
    cached invokes nothing. *)
Theorem inspection_runs_on_parser_stage d p l x w :
  coherent d l w →
  let parsed := (getTriedParse d l w).1 in
  let '(r, w') := getTriedInspection d p l x w in
  if positionCached d p w
  then w' = w
  else
    match parsed with
    | ParserItem triedParse =>
        r = Some (InspectionItem
                    (tryInspection (getSettings l x) triedParse
                       (mkInspectionPosition (character (deref p)) (line (deref p))))) ∧
        invocations TryInspection (uri d) (engineCalls w')
        = S (invocations TryInspection (uri d) (engineCalls w))
    | upstream =>
        itemIsErr upstream = true ∧ stage upstream ≠ Parser ∧ r = Some upstream ∧
        invocations TryInspection (uri d) (engineCalls w')
        = invocations TryInspection (uri d) (engineCalls w)
    end.
Proof.
  intros Hco.
  destruct (getTriedParse_coherent d l w Hco) as (wp & -> & _). cbn [fst].
  destruct (positionCached d p w) eqn:Hp.
  - unfold positionCached in Hp.
    destruct (InspectionCache w !! uri d) as [pc|] eqn:Hw; [|done].
    apply bool_decide_eq_true in Hp as [i Hi].
    by rewrite (getTriedInspection_hit d p l x w pc i).
  - destruct (getTriedInspection_miss d p l x w Hco Hp) as (w' & -> & _ & _ & _ & Hn).
    rewrite Hn. unfold inspectionItemOf. cbn [mayRun].
    assert (∀ i, parserItemOf d l = i → stage i ≠ Parser → itemIsErr i = true) as Hup.
    { intros i <-. unfold parserItemOf, snapshotItemOf.
      by destruct (lexerItemOf d l) as [st|e]; [destruct (trySnapshot st)|]. }
    destruct (parserItemOf d l) as [r|r|r|r] eqn:Hparsed.
    3: split; [done|lia].
    all: split_and!; [by apply Hup|done|done|lia].
Qed.

(** C4, as amended: the position cache is keyed by the identity of the
    position object.  A second call with the same object is a hit and
    changes nothing; a second call with another object is a miss even when
    its line and character are the same: the inspection is computed again
    (running [tryInspection] once more whenever the parser stage is reached),
    with an equal outcome. *)
Theorem inspection_cache_keyed_by_identity d p1 p2 l x w :
  coherent d l w →
  positionCached d p1 w = false →
  positionCached d p2 w = false →
  line (deref p1) = line (deref p2) →
  character (deref p1) = character (deref p2) →
  let '(r1, w1) := getTriedInspection d p1 l x w in
  let '(r2, w2) := getTriedInspection d p2 l x w1 in
  r2 = r1 ∧
  if decide (addr p1 = addr p2)
  then w2 = w1
  else invocations TryInspection (uri d) (engineCalls w2)
       = (invocations TryInspection (uri d) (engineCalls w1)
          + if mayRun d l TryInspection then 1 else 0)%nat.
Proof.
  intros Hco Hp1 Hp2 Hline Hchar.
  destruct (getTriedInspection_miss d p1 l x w Hco Hp1) as (w1 & -> & Hco1 & Hic & _ & _).
  assert (inspectionItemOf d l x (deref p2) = inspectionItemOf d l x (deref p1)) as Hsame.
  { unfold inspectionItemOf. by rewrite Hline, Hchar. }
  case_decide as Haddr.
  - erewrite (getTriedInspection_hit d p2 l x w1); [done| |].
    + rewrite Hic. apply lookup_insert_eq.
    + rewrite <- Haddr. apply lookup_insert_eq.
  - assert (positionCached d p2 w1 = false) as Hp2'.
    { unfold positionCached. rewrite Hic, lookup_insert_eq.
      apply bool_decide_eq_false. rewrite lookup_insert_ne by done.
      apply positionCached_false in Hp2. rewrite Hp2. by intros [? ?]. }
    destruct (getTriedInspection_miss d p2 l x w1 Hco1 Hp2') as (w2 & -> & _ & _ & _ & Hn).
    by rewrite Hsame.
Qed.

(** C8: [update] and [close] remove the document's entry from all four maps,
    whatever the changes and the version; the getter called next finds
    nothing, runs the lexer again and returns what the engine yields for the
    document. *)
Theorem update_and_close_invalidate d changes version w :
  invalidated d w (update d changes version w) ∧ invalidated d w (close d w).
Proof.
  assert (invalidated d w (close d w)) as Hclose; [|by split].
  unfold invalidated. split_and!; try (cbn; by rewrite lookup_delete_eq); try done.
  - intros l. destruct (getLexerState d l (close d w)) as [r w''] eqn:Hg.
    unfold_getters. unfold close in Hg. cbn in Hg. rewrite lookup_delete_eq in Hg.
    simplify_eq. split; [done|]. count_calls.
  - intros l. destruct (getTriedLexerSnapshot d l (close d w)) as [r w''] eqn:Hg.
    unfold_getters. unfold close in Hg. cbn in Hg. rewrite !lookup_delete_eq in Hg.
    unfold snapshotItemOf, lexerItemOf.
    repeat case_match; simplify_eq/=; (split; [done|]); count_calls.
  - intros l. destruct (getTriedParse d l (close d w)) as [r w''] eqn:Hg.
    unfold_getters. unfold close in Hg. cbn in Hg. rewrite !lookup_delete_eq in Hg.
    unfold parserItemOf, snapshotItemOf, lexerItemOf.
    repeat case_match; simplify_eq/=; (split; [done|]); count_calls.
  - intros p l x. destruct (getTriedInspection d p l x (close d w)) as [r w''] eqn:Hg.
    unfold_getters. unfold close in Hg. cbn in Hg. rewrite !lookup_delete_eq in Hg.
    cbn in Hg. rewrite lookup_empty in Hg. rewrite !lookup_delete_eq in Hg.
    unfold inspectionItemOf, parserItemOf, snapshotItemOf, lexerItemOf.
    repeat case_match; simplify_eq/=; (split; [done|]); count_calls.
Qed.

End CacheProperties.

(* ================================================================== *)
(** * Properties of the analysis session                              *)
(* ================================================================== *)

Section PromiseAll.
Context {A : Type}.

Lemma allFilled_agree (slots : list (option A)) values filled :
  slotsAgree slots values → allFilled slots = Some filled → filled = values.
Proof.
  intros Hagree. revert filled.
  induction Hagree as [|slot v slots values Hslot _ IH]; intros filled; cbn.
  - congruence.
  - destruct slot as [v'|]; [|done].
    destruct (allFilled slots) as [vs|]; [|done].
    intros [= <-]. destruct Hslot as [|[= ->]]; [done|]. by rewrite (IH vs).
Qed.

Lemma allFilled_None (slots : list (option A)) :
  allFilled slots = None → ∃ i, slots !! i = Some None.
Proof.
  induction slots as [|[v|] slots IH]; cbn; [done| |].
  - destruct (allFilled slots); [done|]. intros _.
    destruct IH as [i Hi]; [done|]. by exists (S i).
  - intros _. by exists 0%nat.
Qed.

Lemma slotsAgree_fill (slots : list (option A)) values i v :
  slotsAgree slots values → values !! i = Some v →
  slotsAgree (<[i := Some v]> slots) values.
Proof.
  intros Hagree. revert i.
  induction Hagree as [|slot v' slots values Hslot Hrest IH]; intros i Hi; [done|].
  destruct i as [|i]; cbn in *.
  - simplify_eq. constructor; [by right|done].
  - constructor; [done|]. by apply IH.
Qed.

Lemma slotsAgree_replicate (values : list A) :
  slotsAgree (replicate (length values) (@None A)) values.
Proof. induction values; constructor; [by left|done]. Qed.

(** With promises that all fulfil, [Promise.all] never rejects, and what it
    fulfils with are the values in array order. *)
Lemma allLoop_fulfilled (values : list A) slots settleOrder outcome :
  slotsAgree slots values →
  allLoop (Fulfilled <$> values) slots settleOrder = Some outcome →
  outcome = Fulfilled values.
Proof.
  revert slots. induction settleOrder as [|i later IH]; intros slots Hagree; cbn.
  - destruct (allFilled slots) as [filled|] eqn:Hf; [|done].
    intros [= <-]. by rewrite (allFilled_agree _ _ _ Hagree Hf).
  - destruct (allFilled slots) as [filled|] eqn:Hf.
    + intros [= <-]. by rewrite (allFilled_agree _ _ _ Hagree Hf).
    + rewrite list_lookup_fmap.
      destruct (values !! i) as [v|] eqn:Hv; cbn; [|by apply IH].
      apply IH. by apply slotsAgree_fill.
Qed.

(** It fulfils as soon as every promise whose slot is still empty settles. *)
Lemma allLoop_settles (values : list A) slots settleOrder :
  slotsAgree slots values →
  (∀ i, slots !! i = Some None → i ∈ settleOrder) →
  allLoop (Fulfilled <$> values) slots settleOrder = Some (Fulfilled values).
Proof.
  revert slots. induction settleOrder as [|i later IH]; intros slots Hagree Hall; cbn.
  - destruct (allFilled slots) as [filled|] eqn:Hf.
    + by rewrite (allFilled_agree _ _ _ Hagree Hf).
    + destruct (allFilled_None _ Hf) as [j Hj]. by apply Hall, elem_of_nil in Hj.
  - destruct (allFilled slots) as [filled|] eqn:Hf.
    + by rewrite (allFilled_agree _ _ _ Hagree Hf).
    + rewrite list_lookup_fmap.
      destruct (values !! i) as [v|] eqn:Hv; cbn.
      * apply IH; [by apply slotsAgree_fill|].
        intros j Hj. destruct (decide (j = i)) as [->|Hne].
        -- rewrite list_lookup_insert_eq in Hj; [done|].
           rewrite (Forall2_length _ _ _ Hagree). by apply lookup_lt_Some in Hv.
        -- rewrite list_lookup_insert_ne in Hj by done.
           apply Hall, elem_of_cons in Hj as [?|?]; [done|done].
      * apply IH; [done|].
        intros j Hj. pose proof (Hall j Hj) as [->|?]%elem_of_cons; [|done].
        apply lookup_lt_Some in Hj. apply lookup_ge_None in Hv.
        rewrite (Forall2_length _ _ _ Hagree) in Hj. lia.
Qed.

Lemma Promise_all_fulfilled (values : list A) settleOrder outcome :
  Promise_all settleOrder (Fulfilled <$> values) = Some outcome →
  outcome = Fulfilled values.
Proof.
  unfold Promise_all. rewrite length_fmap.
  apply allLoop_fulfilled, slotsAgree_replicate.
Qed.

Lemma Promise_all_settles (values : list A) settleOrder :
  (∀ i, (i < length values)%nat → i ∈ settleOrder) →
  Promise_all settleOrder (Fulfilled <$> values) = Some (Fulfilled values).
Proof.
  intros Hall. unfold Promise_all. rewrite length_fmap.
  apply allLoop_settles; [apply slotsAgree_replicate|].
  intros i Hi. apply Hall. apply lookup_lt_Some in Hi. by rewrite length_replicate in Hi.
Qed.

(** A promise with a [catch] handler always fulfils. *)
Lemma catch_fulfilled (p : Promise A) (onRejected : JsError → A) :
  catch p onRejected
  = Fulfilled match p with Fulfilled v => v | Rejected e => onRejected e end.
Proof. by destruct p. Qed.

End PromiseAll.

Section AnalysisProperties.
Context `{R : Responses} {C : Analysis.Collaborators}.

Import Analysis.

Lemma catch_contribution (p : Promise (list CompletionItem)) :
  catch p (λ _, EmptyCompletionItems) = Fulfilled (contribution p).
Proof. by destruct p. Qed.

Lemma getCompletionItems_outcome this settleOrder :
  getCompletionItems this settleOrder
  = match Promise_all settleOrder
            (Fulfilled <$> [contribution (libraryItems this); contribution (keywordItems this);
                            contribution (environmentItems this);
                            contribution (localItems this)]) with
    | None => None
    | Some _ => Some (Fulfilled (mergedItems this))
    end.
Proof.
  unfold getCompletionItems. rewrite !catch_contribution.
  fold (libraryItems this) (keywordItems this) (environmentItems this) (localItems this).
  change [Fulfilled (contribution (libraryItems this));
          Fulfilled (contribution (keywordItems this));
          Fulfilled (contribution (environmentItems this));
          Fulfilled (contribution (localItems this))]
    with (Fulfilled <$> [contribution (libraryItems this); contribution (keywordItems this);
                         contribution (environmentItems this);
                         contribution (localItems this)]).
  destruct (Promise_all _ _) as [outcome|] eqn:Hall; [|done].
  by rewrite (Promise_all_fulfilled _ _ _ Hall).
Qed.

Lemma getCompletionItems_settled this settleOrder :
  allSettle 4 settleOrder →
  getCompletionItems this settleOrder = Some (Fulfilled (mergedItems this)).
Proof.
  intros Hall. rewrite getCompletionItems_outcome. by rewrite Promise_all_settles.
Qed.


(** C6: once the four provider promises have settled, in whatever order,
    the result is the keyword provider's items, then the library's, then the
    environment's, then the local document's, concatenated as they are (so
    the length is the sum of the lengths); two settle orders give the same
    list. *)
Theorem completion_items_concatenate_in_fixed_order this settleOrder settleOrder' :
  allSettle 4 settleOrder →
  allSettle 4 settleOrder' →
  getCompletionItems this settleOrder
  = Some (Fulfilled (contribution (keywordItems this) ++ contribution (libraryItems this) ++
                     contribution (environmentItems this) ++ contribution (localItems this))) ∧
  getCompletionItems this settleOrder' = getCompletionItems this settleOrder ∧
  length (mergedItems this)
  = (length (contribution (keywordItems this)) + length (contribution (libraryItems this)) +
     length (contribution (environmentItems this)) + length (contribution (localItems this)))%nat.
Proof.
  intros Hall Hall'. rewrite !getCompletionItems_settled by done.
  split_and!; try done. unfold mergedItems. rewrite !length_app. lia.
Qed.

Lemma Promise_all_one {A} (v : A) settleOrder :
  Promise_all settleOrder [Fulfilled v]
  = if decide (0%nat ∈ settleOrder) then Some (Fulfilled [v]) else None.
Proof.
  case_decide as Hin.
  - apply (Promise_all_settles [v]). intros i Hi. cbn in Hi. by replace i with 0%nat by lia.
  - unfold Promise_all. cbn [length replicate].
    induction settleOrder as [|i later IH]; [done|].
    apply not_elem_of_cons in Hin as [Hne Hin].
    cbn. destruct i as [|i]; [done|]. cbn. by apply IH.
Qed.

(** *** The position resolver *)

Lemma firstTokenSpanning_find offset lineTokens :
  firstTokenSpanning offset lineTokens = List.find (λ token, spans token offset) lineTokens.
Proof.
  induction lineTokens as [|token rest IH]; [done|]. cbn. unfold spans.
  rewrite Z.geb_leb, IH. done.
Qed.

Lemma firstIdentifierSpanning_find offset lineTokens :
  Forall (λ token, positionStart token ≤ positionEnd token) lineTokens →
  firstTokenSpanning (offset + 1) lineTokens = None →
  firstIdentifierSpanning offset lineTokens
  = withTrailingDot <$>
      List.find (λ token, isIdentifier token && (positionEnd token =? offset)) lineTokens.
Proof.
  induction 1 as [|token rest Hwf _ IH]; [done|]. cbn.
  destruct ((positionStart token <=? offset + 1) && (positionEnd token >=? offset + 1))
    eqn:Hspan; [done|].
  intros Hrest. rewrite (IH Hrest). unfold isIdentifier.
  apply andb_false_iff in Hspan.
  destruct (String.eqb (kind token) LineTokenKind_Identifier); cbn.
  - destruct (positionEnd token =? offset) eqn:Hend.
    + apply Z.eqb_eq in Hend.
      replace ((positionStart token <=? offset) && (positionEnd token >=? offset)) with true;
        [done|].
      symmetry. apply andb_true_iff. rewrite Z.geb_leb. split; apply Z.leb_le; lia.
    + apply Z.eqb_neq in Hend.
      replace ((positionStart token <=? offset) && (positionEnd token >=? offset)) with false;
        [done|].
      symmetry. apply andb_false_iff. rewrite Z.geb_leb.
      destruct Hspan as [Hs|He]; [left|right]; apply Z.leb_gt.
      * apply Z.leb_gt in Hs. lia.
      * rewrite Z.geb_leb in He. apply Z.leb_gt in He.
        destruct (decide (positionStart token ≤ offset)); lia.
  - by destruct ((positionStart token <=? offset) && (positionEnd token >=? offset)).
Qed.

(** C9: on tokens whose spans are well formed, [maybeTokenAt] is the
    position resolver of the specification: the first token of the cursor's
    line whose span holds the cursor; failing that, when the single
    character before the cursor is a dot and an identifier token ends at the
    dot's position, that identifier with the dot appended and its end moved
    by one; in every other case, no token. *)
Theorem maybeTokenAt_resolves_as_specified document position :
  wellFormedTokens document position →
  maybeTokenAt document position = resolveToken_spec document position.
Proof.
  intros Hwf. unfold maybeTokenAt, resolveToken_spec.
  unfold wellFormedTokens, maybeLineTokensAt in *.
  destruct (arrayAt _ _) as [cursorLine|]; [|done].
  specialize (Hwf _ eq_refl).
  rewrite firstTokenSpanning_find.
  destruct (List.find _ _) as [token|] eqn:Hfirst; [done|].
  fold (dotBeforeCursor document position).
  destruct (dotBeforeCursor document position); [|done].
  apply firstIdentifierSpanning_find; [done|].
  rewrite firstTokenSpanning_find.
  by replace (character position - 1 + 1) with (character position) by lia.
Qed.

End AnalysisProperties.

(* ================================================================== *)
(** * The properties at concrete instances                            *)
(* ================================================================== *)

Section Instances.
Import Examples.

#[local] Existing Instance toyEngine.
#[local] Existing Instance toyResponses.
#[local] Existing Instance toyCollaborators.


(** The short circuit on the unlexable document, after a parse, an
    inspection and a snapshot request. *)
Lemma lexer_failure_short_circuits_witness :
  coherent (E := toyEngine) unlexableDocument None emptyWorkspace ∧
  lexerItemOf (E := toyEngine) unlexableDocument None = Err "unexpected character" ∧
  let '(r, w') :=
    getTriedParse (E := toyEngine) unlexableDocument None
      (runRequests unlexableDocument None
         [RequestParse; RequestInspection (mkRef 1%positive (mkPosition 0 1)) None;
          RequestLexerSnapshot]
         emptyWorkspace) in
  r = LexerItem (E := toyEngine) (Err "unexpected character") ∧ stage r = Lexer ∧
  ∀ f, f ≠ TryLex →
       invocations f (uri unlexableDocument) (engineCalls w')
       = invocations f (uri unlexableDocument) (engineCalls (E := toyEngine) emptyWorkspace).
Proof.
  split; [apply emptyWorkspace_coherent|]. split; [reflexivity|].
  apply (lexer_failure_short_circuits (E := toyEngine));
    [apply emptyWorkspace_coherent|reflexivity].
Defined.

(** C3, as stated, fails: for a document that lexes but does not parse, the
    parser stage hands down a failure, and [getTriedInspection] still runs
    [tryInspection] on it and returns the inspection, not the parse
    failure. *)
Lemma inspection_runs_after_failed_parse :
  let '(parsed, _) :=
    getTriedParse (E := toyEngine) unparsableDocument None emptyWorkspace in
  let '(r, w') :=
    getTriedInspection (E := toyEngine) unparsableDocument
      (mkRef 1%positive (mkPosition 0 2)) None None emptyWorkspace in
  stage parsed = Parser ∧ itemIsErr parsed = true ∧ r ≠ Some parsed ∧
  r = Some (InspectionItem (E := toyEngine) (Ok "partial")) ∧
  invocations TryInspection (uri unparsableDocument) (engineCalls w') = 1%nat.
Proof. vm_compute. repeat split; congruence. Qed.

(** The inspection of the unparsable document from the empty workspace. *)
Lemma inspection_runs_on_parser_stage_witness :
  coherent (E := toyEngine) unparsableDocument None emptyWorkspace ∧
  let parsed := (getTriedParse (E := toyEngine) unparsableDocument None emptyWorkspace).1 in
  let '(r, w') :=
    getTriedInspection (E := toyEngine) unparsableDocument
      (mkRef 1%positive (mkPosition 0 2)) None None emptyWorkspace in
  if positionCached unparsableDocument (mkRef 1%positive (mkPosition 0 2)) emptyWorkspace
  then w' = emptyWorkspace
  else
    match parsed with
    | ParserItem triedParse =>
        r = Some (InspectionItem
                    (tryInspection (getSettings None None) triedParse
                       (mkInspectionPosition 2 0))) ∧
        invocations TryInspection (uri unparsableDocument) (engineCalls w')
        = S (invocations TryInspection (uri unparsableDocument)
               (engineCalls (E := toyEngine) emptyWorkspace))
    | upstream =>
        itemIsErr upstream = true ∧ stage upstream ≠ Parser ∧ r = Some upstream ∧
        invocations TryInspection (uri unparsableDocument) (engineCalls w')
        = invocations TryInspection (uri unparsableDocument)
            (engineCalls (E := toyEngine) emptyWorkspace)
    end.
Proof.
  split; [apply emptyWorkspace_coherent|].
  apply (inspection_runs_on_parser_stage (E := toyEngine) unparsableDocument
           (mkRef 1%positive (mkPosition 0 2)) None None emptyWorkspace).
  apply emptyWorkspace_coherent.
Defined.

(** C4, as stated, fails: two position objects with the same line and
    character are two keys; the second call is a miss and runs
    [tryInspection] a second time. *)
Lemma equal_positions_are_distinct_keys :
  let p1 := mkRef 1%positive (mkPosition 0 2) in
  let p2 := mkRef 2%positive (mkPosition 0 2) in
  let '(r1, w1) :=
    getTriedInspection (E := toyEngine) goodDocument p1 None None emptyWorkspace in
  let '(r2, w2) := getTriedInspection (E := toyEngine) goodDocument p2 None None w1 in
  deref p1 = deref p2 ∧
  positionCached goodDocument p2 w1 = false ∧
  invocations TryInspection (uri goodDocument) (engineCalls w1) = 1%nat ∧
  invocations TryInspection (uri goodDocument) (engineCalls w2) = 2%nat.
Proof. vm_compute. by repeat split. Qed.

(** Two position objects for line 0, character 2 of the good document. *)
Lemma inspection_cache_keyed_by_identity_witness :
  let p1 := mkRef 1%positive (mkPosition 0 2) in
  let p2 := mkRef 2%positive (mkPosition 0 2) in
  coherent (E := toyEngine) goodDocument None emptyWorkspace ∧
  positionCached (E := toyEngine) goodDocument p1 emptyWorkspace = false ∧
  positionCached (E := toyEngine) goodDocument p2 emptyWorkspace = false ∧
  line (deref p1) = line (deref p2) ∧
  character (deref p1) = character (deref p2) ∧
  let '(r1, w1) :=
    getTriedInspection (E := toyEngine) goodDocument p1 None None emptyWorkspace in
  let '(r2, w2) := getTriedInspection goodDocument p2 None None w1 in
  r2 = r1 ∧
  if decide (addr p1 = addr p2)
  then w2 = w1
  else invocations TryInspection (uri goodDocument) (engineCalls w2)
       = (invocations TryInspection (uri goodDocument) (engineCalls w1)
          + if mayRun goodDocument None TryInspection then 1 else 0)%nat.
Proof.
  intros p1 p2.
  split; [apply emptyWorkspace_coherent|].
  do 4 (split; [reflexivity|]).
  apply (inspection_cache_keyed_by_identity (E := toyEngine) goodDocument p1 p2 None None
           emptyWorkspace); try reflexivity.
  apply emptyWorkspace_coherent.
Defined.

(** Stage soundness in the workspace left by parsing the unlexable
    document. *)
Lemma returned_items_stage_sound_witness :
  let w := (getTriedParse (E := toyEngine) unlexableDocument None emptyWorkspace).2 in
  reachable w ∧
  stageSound LexerSnapshot (getTriedLexerSnapshot unlexableDocument None w).1 ∧
  stageSound Parser (getTriedParse unlexableDocument None w).1 ∧
  (∀ i, (getTriedInspection unlexableDocument (mkRef 1%positive (mkPosition 0 0))
           None None w).1 = Some i → stageSound Inspection i).
Proof.
  intros w.
  assert (reachable w) as Hreach by (apply reachable_getTriedParse, reachable_empty).
  split; [done|].
  by apply (returned_items_stage_sound (E := toyEngine)).
Defined.

(** A settle order in which the environment provider answers first and the
    keyword provider last. *)
Lemma settleOrder_allSettle : Analysis.allSettle 4 [2; 0; 3; 1]%nat.
Proof.
  intros i Hi. do 4 (destruct i as [|i]; [set_solver|]). lia.
Defined.

(** The session whose library provider is rejected: the merge order is not
    the settle order. *)
Lemma completion_items_concatenate_in_fixed_order_witness :
  Analysis.allSettle 4 [2; 0; 3; 1]%nat ∧
  Analysis.getCompletionItems (C := toyCollaborators) failingLibrarySession [2; 0; 3; 1]%nat
  = Some (Fulfilled ["let"; "in"; "Env.Value"; "x"]).
Proof.
  split; [apply settleOrder_allSettle|].
  apply (completion_items_concatenate_in_fixed_order (C := toyCollaborators)
           failingLibrarySession [2; 0; 3; 1]%nat [2; 0; 3; 1]%nat
           settleOrder_allSettle settleOrder_allSettle).
Defined.

(** The cursor right after the dot of [Table.]. *)
Lemma dotted_tokens_wellFormed :
  Analysis.wellFormedTokens (C := toyCollaborators) dottedDocument (mkPosition 0 6).
Proof.
  intros lineTokens [= <-]. repeat constructor. cbn. lia.
Defined.

(** There the resolver synthesizes the token [Table.] spanning 0 to 6. *)
Lemma maybeTokenAt_resolves_as_specified_witness :
  Analysis.wellFormedTokens (C := toyCollaborators) dottedDocument (mkPosition 0 6) ∧
  Analysis.maybeTokenAt (C := toyCollaborators) dottedDocument (mkPosition 0 6)
  = Some (mkLineToken LineTokenKind_Identifier "Table." 0 6) ∧
  Analysis.maybeTokenAt (C := toyCollaborators) dottedDocument (mkPosition 0 6)
  = Analysis.resolveToken_spec dottedDocument (mkPosition 0 6).
Proof.
  split; [apply dotted_tokens_wellFormed|]. split; [reflexivity|].
  apply (maybeTokenAt_resolves_as_specified (C := toyCollaborators)).
  apply dotted_tokens_wellFormed.
Defined.

End Instances.

(* ================================================================== *)
(** * Further properties of the workspace cache                       *)
(* ================================================================== *)

Section CacheCoverage.
Context `{E : Engine}.

Ltac open_getters :=
  unfold runGetter, getTriedInspection, createTriedInspection,
    getTriedParse, createParserCacheItem, getTriedLexerSnapshot,
    createLexerSnapshotCacheItem, getLexerState, createLexerCacheItem,
    getOrCreate, logCall, setInspectionCache in *;
  cbn [readCache writeCache LexerStateCacheRef LexerSnapshotCacheRef ParserCacheRef
       LexerStateCache LexerSnapshotCache ParserCache InspectionCache engineCalls
       fst snd] in *.

Ltac tally :=
  cbn [engineCalls];
  repeat rewrite invocations_app; repeat rewrite invocations_one;
  repeat case_decide; simplify_eq; try lia.

(** *** What an operation leaves alone *)

Lemma close_sameEntriesAt d u w : u ≠ uri d → sameEntriesAt u w (close d w).
Proof.
  intros Hne. unfold sameEntriesAt, close. cbn.
  by rewrite !lookup_delete_ne.
Qed.

(** X1: [close] and [update] touch nothing but the entries of their own
    document: the entries of every other uri stay as they are in all four
    maps, and no engine function is called. *)
Theorem close_and_update_spare_other_documents d changes version u w :
  u ≠ uri d →
  sameEntriesAt u w (close d w) ∧
  sameEntriesAt u w (update d changes version w) ∧
  engineCalls (close d w) = engineCalls w ∧
  engineCalls (update d changes version w) = engineCalls w.
Proof.
  intros Hne. unfold update. split_and!; try done; by apply close_sameEntriesAt.
Qed.

(** X2: closing a document twice is closing it once, and documents can be
    closed in either order. *)
Theorem close_idempotent_and_commutes d d' w :
  close d (close d w) = close d w ∧
  close d (close d' w) = close d' (close d w).
Proof.
  unfold close. cbn. split; f_equal;
    solve [ apply delete_delete_eq | apply delete_delete ].
Qed.

Lemma getLexerState_frame d l u w :
  u ≠ uri d →
  sameEntriesAt u w (getLexerState d l w).2 ∧
  ∀ f, invocations f u (engineCalls (getLexerState d l w).2) = invocations f u (engineCalls w).
Proof.
  intros Hne. unfold sameEntriesAt. open_getters.
  repeat case_match; simplify_eq/=; rewrite ?lookup_insert_ne by done;
    (split; [done|]); intros f; tally.
Qed.

Lemma getTriedLexerSnapshot_frame d l u w :
  u ≠ uri d →
  sameEntriesAt u w (getTriedLexerSnapshot d l w).2 ∧
  ∀ f, invocations f u (engineCalls (getTriedLexerSnapshot d l w).2)
       = invocations f u (engineCalls w).
Proof.
  intros Hne. unfold sameEntriesAt. open_getters.
  repeat case_match; simplify_eq/=; rewrite ?lookup_insert_ne by done;
    (split; [done|]); intros f; tally.
Qed.

Lemma getTriedParse_frame d l u w :
  u ≠ uri d →
  sameEntriesAt u w (getTriedParse d l w).2 ∧
  ∀ f, invocations f u (engineCalls (getTriedParse d l w).2) = invocations f u (engineCalls w).
Proof.
  intros Hne. unfold sameEntriesAt. open_getters.
  repeat case_match; simplify_eq/=; rewrite ?lookup_insert_ne by done;
    (split; [done|]); intros f; tally.
Qed.

Lemma getTriedInspection_frame d p l x u w :
  u ≠ uri d →
  sameEntriesAt u w (getTriedInspection d p l x w).2 ∧
  ∀ f, invocations f u (engineCalls (getTriedInspection d p l x w).2)
       = invocations f u (engineCalls w).
Proof.
  intros Hne. unfold sameEntriesAt. open_getters.
  repeat case_match; simplify_eq/=; rewrite ?lookup_insert_ne by done;
    (split; [done|]); intros f; tally.
Qed.

(** X3: a getter called for one document leaves the entries of every other
    uri as they are, in all four maps, and calls the engine for no other
    uri. *)
Theorem getters_spare_other_documents d p l x u w :
  u ≠ uri d →
  (sameEntriesAt u w (getLexerState d l w).2 ∧
   sameEntriesAt u w (getTriedLexerSnapshot d l w).2 ∧
   sameEntriesAt u w (getTriedParse d l w).2 ∧
   sameEntriesAt u w (getTriedInspection d p l x w).2) ∧
  ∀ f,
    invocations f u (engineCalls (getLexerState d l w).2) = invocations f u (engineCalls w) ∧
    invocations f u (engineCalls (getTriedLexerSnapshot d l w).2)
    = invocations f u (engineCalls w) ∧
    invocations f u (engineCalls (getTriedParse d l w).2) = invocations f u (engineCalls w) ∧
    invocations f u (engineCalls (getTriedInspection d p l x w).2)
    = invocations f u (engineCalls w).
Proof.
  intros Hne.
  destruct (getLexerState_frame d l u w Hne) as [? ?].
  destruct (getTriedLexerSnapshot_frame d l u w Hne) as [? ?].
  destruct (getTriedParse_frame d l u w Hne) as [? ?].
  destruct (getTriedInspection_frame d p l x u w Hne) as [? ?].
  by split_and!.
Qed.

Lemma getters_never_write_downstream_lexer d l w :
  LexerSnapshotCache (getLexerState d l w).2 = LexerSnapshotCache w ∧
  ParserCache (getLexerState d l w).2 = ParserCache w ∧
  InspectionCache (getLexerState d l w).2 = InspectionCache w.
Proof. open_getters. repeat case_match; simplify_eq/=; done. Qed.

Lemma getters_never_write_downstream_snapshot d l w :
  ParserCache (getTriedLexerSnapshot d l w).2 = ParserCache w ∧
  InspectionCache (getTriedLexerSnapshot d l w).2 = InspectionCache w.
Proof. open_getters. repeat case_match; simplify_eq/=; done. Qed.

Lemma getters_never_write_downstream_parser d l w :
  InspectionCache (getTriedParse d l w).2 = InspectionCache w.
Proof. open_getters. repeat case_match; simplify_eq/=; done. Qed.

(** X4: a getter never writes into the map of a later stage:
    [getLexerState] leaves the snapshot, parser and inspection maps as they
    are, [getTriedLexerSnapshot] the parser and inspection maps, and
    [getTriedParse] the inspection map. *)
Theorem getters_never_write_downstream d l w :
  (LexerSnapshotCache (getLexerState d l w).2 = LexerSnapshotCache w ∧
   ParserCache (getLexerState d l w).2 = ParserCache w ∧
   InspectionCache (getLexerState d l w).2 = InspectionCache w) ∧
  (ParserCache (getTriedLexerSnapshot d l w).2 = ParserCache w ∧
   InspectionCache (getTriedLexerSnapshot d l w).2 = InspectionCache w) ∧
  InspectionCache (getTriedParse d l w).2 = InspectionCache w.
Proof.
  open_getters. repeat case_match; simplify_eq/=; done.
Qed.

(** *** The key is the uri *)

Lemma getTriedInspection_stored d p l x w :
  ∃ i positionCache,
    (getTriedInspection d p l x w).1 = Some i ∧
    InspectionCache (getTriedInspection d p l x w).2 !! uri d = Some positionCache ∧
    positionCache !! addr p = Some i.
Proof.
  unfold getTriedInspection.
  destruct (InspectionCache w !! uri d) as [pc|] eqn:Hw.
  - destruct (pc !! addr p) as [i|] eqn:Hp; cbn.
    + by exists i, pc.
    + destruct (createTriedInspection d (deref p) l x w) as [value w2]. cbn.
      eexists _, _. split; [done|]. by rewrite !lookup_insert_eq.
  - rewrite lookup_empty.
    destruct (createTriedInspection d (deref p) l x _) as [value w2]. cbn.
    eexists _, _. split; [done|]. by rewrite !lookup_insert_eq.
Qed.

(** X5: the maps are keyed by the uri alone.  A getter called for a document
    with the same uri as one just served returns the stored outcome and
    leaves the workspace as it is, whatever the text and the locale of the
    second document; no engine function sees the second text.  Likewise an
    inspection for the same position object and uri returns the stored item,
    whatever the locale, the resolver and the coordinates then held by the
    object. *)
Theorem cache_key_is_uri_alone g d d' l l' p p' x x' w :
  uri d' = uri d →
  addr p' = addr p →
  runGetter g d' l' (runGetter g d l w).2 = runGetter g d l w ∧
  getTriedInspection d' p' l' x' (getTriedInspection d p l x w).2
  = getTriedInspection d p l x w.
Proof.
  intros Huri Haddr. split.
  - destruct g; unfold runGetter.
    + pose proof (getOrCreate_stored LexerStateCacheRef d l createLexerCacheItem w) as H.
      unfold getLexerState in *.
      destruct (getOrCreate LexerStateCacheRef d l createLexerCacheItem w) as [r w1].
      cbn in *. rewrite (getOrCreate_hit _ _ _ _ _ r); [done|]. by rewrite Huri; apply H.
    + pose proof (getOrCreate_stored LexerSnapshotCacheRef d l
                    createLexerSnapshotCacheItem w) as H.
      unfold getTriedLexerSnapshot in *.
      destruct (getOrCreate LexerSnapshotCacheRef d l createLexerSnapshotCacheItem w)
        as [r w1].
      cbn in *. rewrite (getOrCreate_hit _ _ _ _ _ r); [done|]. by rewrite Huri; apply H.
    + pose proof (getOrCreate_stored ParserCacheRef d l createParserCacheItem w) as H.
      unfold getTriedParse in *.
      destruct (getOrCreate ParserCacheRef d l createParserCacheItem w) as [r w1].
      cbn in *. rewrite (getOrCreate_hit _ _ _ _ _ r); [done|]. by rewrite Huri; apply H.
  - destruct (getTriedInspection_stored d p l x w) as (i & pc & Hr & Hpc & Hi).
    destruct (getTriedInspection d p l x w) as [r w1]. cbn in *. subst r.
    apply (getTriedInspection_hit d' p' l' x' w1 pc i).
    + by rewrite Huri.
    + by rewrite Haddr.
Qed.

(** X6: [getTriedInspection] always returns an item, never [undefined], and
    what it returns is afterwards the entry of the position object, so that
    the same request is then a hit; this holds as well when the item is the
    failure of an earlier stage. *)
Theorem getTriedInspection_returns_and_stores d p l x w :
  let '(r, w') := getTriedInspection d p l x w in
  (∃ i, r = Some i) ∧
  positionCached d p w' = true ∧
  getTriedInspection d p l x w' = (r, w').
Proof.
  destruct (getTriedInspection_stored d p l x w) as (i & pc & Hr & Hpc & Hi).
  destruct (getTriedInspection d p l x w) as [r w'] eqn:Hg. cbn in *. subst r.
  split_and!.
  - by exists i.
  - unfold positionCached. rewrite Hpc. apply bool_decide_eq_true. by exists i.
  - by apply (getTriedInspection_hit d p l x w' pc i).
Qed.

(** *** The entries of one uri hang together *)

Lemma consistentAt_same u w w' :
  sameEntriesAt u w w' → consistentAt u w → consistentAt u w'.
Proof. unfold consistentAt. by intros (-> & -> & -> & ->). Qed.

Lemma consistentEntries_upstream lx s p (pc : option (gmap positive TCacheItem)) :
  consistentEntries lx s p pc →
  (lx = None → s = None) ∧ (s = None → p = None) ∧ (p = None → pc = None).
Proof.
  intros (Hs & Hp & Hi). split_and!.
  - intros ->. destruct s as [s0|]; [|done]. by destruct (Hs s0) as (? & ? & _).
  - intros ->. destruct p as [p0|]; [|done]. by destruct (Hp p0) as (? & ? & ? & _).
  - intros ->. destruct pc as [pc0|]; [|done]. by destruct (Hi pc0) as (? & ? & _).
Qed.

Lemma getLexerState_consistentAt d l w :
  consistentAt (uri d) w →
  consistentAt (uri d) (getLexerState d l w).2 ∧
  LexerStateCache (getLexerState d l w).2 !! uri d = Some (getLexerState d l w).1.
Proof.
  intros Hco. split; [|apply (getOrCreate_stored LexerStateCacheRef); done].
  unfold consistentAt in *. unfold getLexerState, getOrCreate. cbn.
  destruct (LexerStateCache w !! uri d) as [lx|] eqn:Hw; cbn; [by rewrite Hw|].
  destruct (consistentEntries_upstream _ _ _ _ Hco) as (H1 & H2 & H3).
  rewrite H1, H2, H3 by auto. by split_and!.
Qed.

Lemma getTriedLexerSnapshot_consistentAt d l w :
  consistentAt (uri d) w →
  consistentAt (uri d) (getTriedLexerSnapshot d l w).2 ∧
  LexerSnapshotCache (getTriedLexerSnapshot d l w).2 !! uri d
  = Some (getTriedLexerSnapshot d l w).1.
Proof.
  intros Hco. split; [|apply (getOrCreate_stored LexerSnapshotCacheRef); done].
  unfold getTriedLexerSnapshot, getOrCreate. cbn.
  destruct (LexerSnapshotCache w !! uri d) as [s|] eqn:Hw; [done|].
  unfold createLexerSnapshotCacheItem.
  destruct (getLexerState_consistentAt d l w Hco) as [Hco1 Hlx].
  destruct (getters_never_write_downstream_lexer d l w) as (Hs & Hp & Hi).
  destruct (getLexerState d l w) as [lx w1]. cbn in Hco1, Hlx, Hs, Hp, Hi.
  unfold consistentAt in Hco1. rewrite Hs, Hw, Hlx in Hco1.
  destruct (consistentEntries_upstream _ _ _ _ Hco1) as (_ & H2 & H3).
  assert (consistentEntries (Some lx) (Some (snapshotFrom lx)) None None) as Hgoal.
  { split_and!; try done. intros s [= <-]. by exists lx. }
  unfold consistentAt.
  destruct lx as [lexerState|e]; cbn; by rewrite Hlx, H2, H3, lookup_insert_eq by auto.
Qed.

Lemma getTriedParse_consistentAt d l w :
  consistentAt (uri d) w →
  consistentAt (uri d) (getTriedParse d l w).2 ∧
  ParserCache (getTriedParse d l w).2 !! uri d = Some (getTriedParse d l w).1.
Proof.
  intros Hco. split; [|apply (getOrCreate_stored ParserCacheRef); done].
  unfold getTriedParse, getOrCreate. cbn.
  destruct (ParserCache w !! uri d) as [p|] eqn:Hw; [done|].
  unfold createParserCacheItem.
  destruct (getTriedLexerSnapshot_consistentAt d l w Hco) as [Hco1 Hsnap].
  destruct (getters_never_write_downstream_snapshot d l w) as (Hp & Hi).
  destruct (getTriedLexerSnapshot d l w) as [s w1]. cbn in Hco1, Hsnap, Hp, Hi.
  unfold consistentAt in Hco1. rewrite Hp, Hw, Hsnap in Hco1.
  destruct (consistentEntries_upstream _ _ _ _ Hco1) as (_ & _ & H3).
  assert (consistentEntries (LexerStateCache w1 !! uri d) (Some s)
            (Some (parserFrom l s)) None) as Hgoal.
  { destruct Hco1 as (Hs1 & _ & _). split_and!; try done.
    intros p [= <-]. by exists s, l. }
  unfold consistentAt.
  destruct s as [r|[snapshot|e]|r|r]; cbn; by rewrite Hsnap, H3, lookup_insert_eq by auto.
Qed.

Lemma consistentAt_setInspectionCache u w q positionCache m :
  consistentAt u w →
  ParserCache w !! u = Some q →
  map_Forall (λ _ i, ∃ l x pos, i = inspectionFrom l x pos q) positionCache →
  consistentAt u (setInspectionCache (<[u := positionCache]> m) w).
Proof.
  intros (Hs & Hp & _) Hq Hall. unfold consistentAt. cbn. rewrite lookup_insert_eq.
  split_and!; try done. intros pc [= <-]. by exists q.
Qed.

Lemma getTriedParse_setInspectionCache d l m w :
  getTriedParse d l (setInspectionCache m w)
  = ((getTriedParse d l w).1, setInspectionCache m (getTriedParse d l w).2).
Proof. open_getters. repeat case_match; simplify_eq/=; congruence. Qed.

Lemma getTriedInspection_consistentAt d p l x w :
  consistentAt (uri d) w → consistentAt (uri d) (getTriedInspection d p l x w).2.
Proof.
  intros Hco. unfold getTriedInspection.
  destruct (getTriedParse_consistentAt d l w Hco) as [Hco2 Hparse].
  pose proof (getters_never_write_downstream_parser d l w) as Hins.
  destruct (InspectionCache w !! uri d) as [pc|] eqn:Hw.
  - destruct (pc !! addr p) as [i|] eqn:Hpos; cbn; [done|].
    pose proof Hco as (_ & _ & Hi). destruct (Hi pc Hw) as (q & Hq & Hall).
    unfold createTriedInspection.
    assert ((getTriedParse d l w).1 = q) as Hkeep.
    { unfold getTriedParse, getOrCreate. cbn. by rewrite Hq. }
    destruct (getTriedParse d l w) as [q' w2]. cbn in *. subst q'.
    destruct q as [r|r|r|r]; cbn.
    all: apply (consistentAt_setInspectionCache _ _ _ _ _ Hco2 Hparse)
      || (apply (consistentAt_setInspectionCache (uri d)
                   (logCall TryInspection d w2) _ _ _ Hco2 Hparse)).
    all: apply map_Forall_insert_2; [|done].
    all: by exists l, x, (deref p).
  - rewrite lookup_empty. unfold createTriedInspection.
    rewrite getTriedParse_setInspectionCache.
    destruct (getTriedParse d l w) as [q w2]. cbn in *.
    destruct q as [r|r|r|r]; cbn.
    all: apply (consistentAt_setInspectionCache _ _ _ _ _ Hco2 Hparse)
      || (apply (consistentAt_setInspectionCache (uri d)
                   (logCall TryInspection d w2) _ _ _ Hco2 Hparse)).
    all: apply map_Forall_insert_2; [|apply map_Forall_empty].
    all: by exists l, x, (deref p).
Qed.

Lemma close_consistentAt d u w : consistentAt u w → consistentAt u (close d w).
Proof.
  intros Hco. destruct (decide (u = uri d)) as [->|Hne].
  - unfold consistentAt, close. cbn. rewrite !lookup_delete_eq. by split_and!.
  - apply (consistentAt_same u w); [by apply close_sameEntriesAt|done].
Qed.

Lemma reachable_pipelineConsistent w : reachable w → pipelineConsistent w.
Proof.
  induction 1 as [|d l w _ IH|d l w _ IH|d l w _ IH|d p l x w _ IH|d w _ IH|d c v w _ IH];
    intros u.
  - unfold consistentAt. cbn. rewrite !lookup_empty. by split_and!.
  - destruct (decide (u = uri d)) as [->|Hne].
    + by apply getLexerState_consistentAt.
    + apply (consistentAt_same u w); [by apply getLexerState_frame|done].
  - destruct (decide (u = uri d)) as [->|Hne].
    + by apply getTriedLexerSnapshot_consistentAt.
    + apply (consistentAt_same u w); [by apply getTriedLexerSnapshot_frame|done].
  - destruct (decide (u = uri d)) as [->|Hne].
    + by apply getTriedParse_consistentAt.
    + apply (consistentAt_same u w); [by apply getTriedParse_frame|done].
  - destruct (decide (u = uri d)) as [->|Hne].
    + by apply getTriedInspection_consistentAt.
    + apply (consistentAt_same u w); [by apply getTriedInspection_frame|done].
  - by apply close_consistentAt.
  - by apply close_consistentAt.
Qed.

(** X7: in every workspace the public operations can produce, the entries
    held under one uri hang together, whatever documents, locales and
    resolvers the host passed: a snapshot entry is what the snapshot stage
    makes of the lexer entry, a parser entry what the parser stage makes of
    the snapshot entry, and every inspection entry what the inspection stage
    makes of the parser entry; in particular an entry of a later stage is
    never there without the entries of the stages before it. *)
Theorem cached_stages_hang_together w u :
  reachable w →
  (∀ s, LexerSnapshotCache w !! u = Some s →
        ∃ lx, LexerStateCache w !! u = Some lx ∧ s = snapshotFrom lx) ∧
  (∀ q, ParserCache w !! u = Some q →
        ∃ s l, LexerSnapshotCache w !! u = Some s ∧ q = parserFrom l s) ∧
  (∀ positionCache, InspectionCache w !! u = Some positionCache →
        ∃ q, ParserCache w !! u = Some q ∧
             ∀ a i, positionCache !! a = Some i → ∃ l x pos, i = inspectionFrom l x pos q).
Proof. intros Hreach. apply (reachable_pipelineConsistent w Hreach u). Qed.

(** X8: in such a workspace, once [getTriedInspection] has served a
    document, every stage of it is stored: each of the three other getters
    then answers from its map, leaving the workspace as it is and calling no
    engine function. *)
Theorem inspection_leaves_every_stage_stored d p l x w g l' :
  reachable w →
  let w' := (getTriedInspection d p l x w).2 in
  (runGetter g d l' w').2 = w'.
Proof.
  intros Hreach w'.
  assert (reachable w') as Hreach' by by apply reachable_getTriedInspection.
  destruct (reachable_pipelineConsistent w' Hreach' (uri d)) as (Hs & Hp & Hi).
  destruct (getTriedInspection_stored d p l x w) as (i & pc & _ & Hpc & _).
  fold w' in Hpc.
  destruct (Hi pc Hpc) as (q & Hq & _).
  destruct (Hp q Hq) as (s & ? & Hsnap & _).
  destruct (Hs s Hsnap) as (lx & Hlx & _).
  destruct g; unfold runGetter.
  - unfold getLexerState. by rewrite (getOrCreate_hit LexerStateCacheRef _ _ _ _ lx).
  - unfold getTriedLexerSnapshot. by rewrite (getOrCreate_hit LexerSnapshotCacheRef _ _ _ _ s).
  - unfold getTriedParse. by rewrite (getOrCreate_hit ParserCacheRef _ _ _ _ q).
Qed.

(** X9: in such a workspace [getTriedInspection] never returns an item with
    the stage tag [Parser]: the parser stage's item, success or failure, is
    always replaced by the inspection made of it. *)
Theorem inspection_never_returns_a_parser_item d p l x w i :
  reachable w →
  (getTriedInspection d p l x w).1 = Some i →
  stage i ≠ Parser.
Proof.
  intros Hreach Hr.
  assert (reachable (getTriedInspection d p l x w).2) as Hreach'
    by by apply reachable_getTriedInspection.
  destruct (reachable_pipelineConsistent _ Hreach' (uri d)) as (_ & _ & Hi).
  destruct (getTriedInspection_stored d p l x w) as (i' & pc & Hr' & Hpc & Hpos).
  rewrite Hr in Hr'. simplify_eq.
  destruct (Hi pc Hpc) as (q & _ & Hall).
  destruct (Hall _ _ Hpos) as (l0 & x0 & pos & ->).
  by destruct q.
Qed.

(** *** Cold requests and transparency *)

(** X10: an inspection requested for a document that has no entry in any map
    runs the whole pipeline once: it returns what the engine yields for the
    document, and each engine function is invoked exactly once if its stage
    can run for this document (the stage before it succeeded; for the
    inspection, the parser stage was reached) and not at all otherwise. *)
Theorem cold_inspection_runs_each_stage_once d p l x w f :
  uncached d w →
  let '(r, w') := getTriedInspection d p l x w in
  r = Some (inspectionItemOf d l x (deref p)) ∧
  invocations f (uri d) (engineCalls w')
  = (invocations f (uri d) (engineCalls w) + if mayRun d l f then 1 else 0)%nat.
Proof.
  intros (Hlx & Hs & Hp & Hi).
  destruct (getTriedInspection d p l x w) as [r w'] eqn:Hg.
  open_getters. rewrite Hi in Hg. cbn in Hg. rewrite lookup_empty, Hp, Hs, Hlx in Hg.
  unfold inspectionItemOf, parserItemOf, snapshotItemOf, lexerItemOf, mayRun,
    parserItemOf, snapshotItemOf, lexerItemOf.
  destruct (tryLex (getSettings l None) (getText d None)) as [lexerState|e]; cbn in *.
  - destruct (trySnapshot lexerState) as [snapshot|e]; cbn in *; simplify_eq.
    + split; [done|]. destruct f; tally.
    + split; [done|]. destruct f; tally.
  - simplify_eq. split; [done|]. destruct f; tally.
Qed.

(** X11: memoisation changes no answer.  After an invalidation of the
    document, and however many requests for it (getters, further closes and
    updates) have been served since, each getter returns exactly what the
    engine yields for the document, whether it answers from its map or
    computes. *)
Theorem memoisation_is_transparent d l qs w :
  let w' := runRequests d l qs (close d w) in
  (getLexerState d l w').1 = lexerItemOf d l ∧
  (getTriedLexerSnapshot d l w').1 = snapshotItemOf d l ∧
  (getTriedParse d l w').1 = parserItemOf d l.
Proof.
  intros w'.
  destruct (runRequests_quiet d l qs (close d w) (close_coherent d l w)) as [Hco _].
  fold w' in Hco.
  destruct (getLexerState_coherent d l w' Hco) as (? & -> & _).
  destruct (getTriedLexerSnapshot_coherent d l w' Hco) as (? & -> & _).
  destruct (getTriedParse_coherent d l w' Hco) as (? & -> & _).
  done.
Qed.

End CacheCoverage.

(* ================================================================== *)
(** * Further properties of the analysis session                      *)
(* ================================================================== *)

Section PromiseCoverage.
Context {A : Type}.




End PromiseCoverage.

Section AnalysisCoverage.
Context `{R : Responses} {C : Analysis.Collaborators}.

Import Analysis.

Lemma firstTokenSpanning_Some offset lineTokens token :
  firstTokenSpanning offset lineTokens = Some token →
  token ∈ lineTokens ∧ positionStart token ≤ offset ≤ positionEnd token.
Proof.
  induction lineTokens as [|t rest IH]; cbn; [done|].
  destruct ((positionStart t <=? offset) && (positionEnd t >=? offset)) eqn:Hspan.
  - intros [= <-]. apply andb_true_iff in Hspan as [Hs He].
    rewrite Z.geb_leb in He. apply Z.leb_le in Hs, He. split; [left|lia].
  - intros [Hin ?]%IH. split; [by right|done].
Qed.

Lemma firstIdentifierSpanning_Some offset lineTokens token :
  firstIdentifierSpanning offset lineTokens = Some token →
  ∃ identifier, identifier ∈ lineTokens ∧
                kind identifier = LineTokenKind_Identifier ∧
                positionStart identifier ≤ offset ≤ positionEnd identifier ∧
                token = withTrailingDot identifier.
Proof.
  induction lineTokens as [|t rest IH]; cbn; [done|].
  destruct ((positionStart t <=? offset) && (positionEnd t >=? offset)) eqn:Hspan.
  - destruct (String.eqb (kind t) LineTokenKind_Identifier) eqn:Hkind.
    + intros [= <-]. apply andb_true_iff in Hspan as [Hs He].
      rewrite Z.geb_leb in He. apply Z.leb_le in Hs, He. apply String.eqb_eq in Hkind.
      exists t. split_and!; try done; try lia. left.
    + intros (t0 & Hin & ?)%IH. exists t0. split; [by right|done].
  - intros (t0 & Hin & ?)%IH. exists t0. split; [by right|done].
Qed.

Lemma maybeTokenAt_cases document position token :
  maybeTokenAt document position = Some token →
  ∃ cursorLine,
    arrayAt (lines (WorkspaceCache_getLexerState document)) (line position) = Some cursorLine ∧
    ((token ∈ tokens cursorLine ∧
      positionStart token ≤ character position ≤ positionEnd token) ∨
     (firstTokenSpanning (character position) (tokens cursorLine) = None ∧
      dotBeforeCursor document position = true ∧
      ∃ identifier, identifier ∈ tokens cursorLine ∧
                    kind identifier = LineTokenKind_Identifier ∧
                    positionStart identifier ≤ character position - 1
                      ≤ positionEnd identifier ∧
                    token = withTrailingDot identifier)).
Proof.
  unfold maybeTokenAt, maybeLineTokensAt.
  destruct (arrayAt _ _) as [cursorLine|]; [|done].
  intros Hres. exists cursorLine. split; [done|].
  destruct (firstTokenSpanning _ _) as [t|] eqn:Hfirst.
  - left. simplify_eq. by apply firstTokenSpanning_Some.
  - right. fold (dotBeforeCursor document position) in Hres.
    destruct (dotBeforeCursor document position); [|done].
    split_and!; try done. by apply firstIdentifierSpanning_Some.
Qed.

(** X12: whatever token [maybeTokenAt] returns, found or synthesized, its
    span holds the cursor; so the range built from it for the providers lies
    on the cursor's line and holds the cursor's column. *)
Theorem resolved_token_spans_cursor document position token :
  maybeTokenAt document position = Some token →
  positionStart token ≤ character position ≤ positionEnd token ∧
  let range := getTokenRangeForPosition token position in
  line (range_start range) = line position ∧
  line (range_end range) = line position ∧
  character (range_start range) ≤ character position ≤ character (range_end range).
Proof.
  intros (cursorLine & _ & [[_ Hspan]|(_ & _ & t0 & _ & _ & Hspan & ->)])%maybeTokenAt_cases;
    cbn; lia.
Qed.

(** X13: a token returned by [maybeTokenAt] is either a token of the cursor's
    line, or, when no token of the line spans the cursor and a dot precedes
    it, an identifier of the line with the dot appended and its end moved by
    one; the synthesized token keeps the identifier kind, so
    [maybeIdentifierAt] returns it as well. *)
Theorem resolved_token_origin document position token :
  maybeTokenAt document position = Some token →
  ∃ cursorLine,
    arrayAt (lines (WorkspaceCache_getLexerState document)) (line position) = Some cursorLine ∧
    (token ∈ tokens cursorLine ∨
     (firstTokenSpanning (character position) (tokens cursorLine) = None ∧
      dotBeforeCursor document position = true ∧
      maybeIdentifierAt document position = Some token ∧
      ∃ identifier, identifier ∈ tokens cursorLine ∧
                    kind identifier = LineTokenKind_Identifier ∧
                    data token = (data identifier ++ ".")%string ∧
                    positionStart token = positionStart identifier ∧
                    positionEnd token = positionEnd identifier + 1)).
Proof.
  intros Hres.
  destruct (maybeTokenAt_cases _ _ _ Hres)
    as (cursorLine & Hline & [[Hin _]|(Hnone & Hdot & t0 & Hin & Hkind & _ & ->)]);
    exists cursorLine; (split; [done|]); [by left|right].
  split_and!; try done.
  - unfold maybeIdentifierAt. rewrite Hres. cbn. rewrite Hkind. done.
  - by exists t0.
Qed.

(** X14: a cursor on a line the lexer state does not have (a negative line
    number, or one past the last line) resolves to no token: the completion
    context is empty, there is no hover target, and [getHover] resolves to
    the empty hover at once, without waiting for any provider. *)
Theorem cursor_outside_the_lines this settleOrder :
  line (position this) < 0 ∨
  Z.of_nat (length (lines (WorkspaceCache_getLexerState (document this))))
    ≤ line (position this) →
  maybeTokenAt (document this) (position this) = None ∧
  maybeIdentifierAt (document this) (position this) = None ∧
  completionContext this = mkCompletionContext None None None ∧
  getHover this settleOrder = Some (Fulfilled EmptyHover).
Proof.
  intros Hout.
  assert (maybeTokenAt (document this) (position this) = None) as Hnone.
  { unfold maybeTokenAt, maybeLineTokensAt, arrayAt.
    case_decide as Hnonneg; [|done]. destruct Hout as [?|Hpast]; [lia|].
    rewrite (proj2 (lookup_ge_None _ _)); [done|]. lia. }
  unfold completionContext, getHover, maybeIdentifierAt. by rewrite Hnone.
Qed.

(** X15: when the token under the cursor is missing or is not an identifier,
    [getHover] resolves to the empty hover at once, whatever the providers do
    and even if none of their promises ever settles. *)
Theorem hover_needs_an_identifier this settleOrder :
  (∀ token, maybeTokenAt (document this) (position this) = Some token →
            kind token ≠ LineTokenKind_Identifier) →
  getHover this settleOrder = Some (Fulfilled EmptyHover).
Proof.
  intros Hkind. unfold getHover, maybeIdentifierAt.
  destruct (maybeTokenAt _ _) as [token|]; [|done].
  destruct (String.eqb (kind token) LineTokenKind_Identifier) eqn:Heq; [|done].
  apply String.eqb_eq in Heq. by destruct (Hkind token).
Qed.




End AnalysisCoverage.

(* ================================================================== *)
(** * Properties of the test library                                  *)
(* ================================================================== *)

Section FixtureCoverage.
Context `{T : TestConstants.TypeLibrary}.

Import TestConstants.

(** X19: the type resolver and the definitions of the test library cover the
    same identifiers: a [Value] request is answered with a type exactly for
    the identifiers that have a library definition, and with [undefined] for
    every other one. *)
Theorem resolver_answers_exactly_the_library identifierLiteral :
  is_Some (SimpleLibraryDefinitions !! identifierLiteral)
  ↔ is_Some (SimpleExternalTypeResolver (Value identifierLiteral)).
Proof.
  unfold SimpleLibraryDefinitions, SimpleExternalTypeResolver. cbn [list_to_map foldr].
  cbn [fst snd curry uncurry].
  rewrite !lookup_insert, lookup_empty.
  repeat case_decide; simplify_eq; split; intros [? ?]; eauto; done.
Qed.

(** X20: an [Invocation] request is answered only for [Test.SquareIfNumber];
    there the answer is the none type unless exactly one argument is passed,
    and for one argument that is neither a number literal nor a number; a
    number that is not a literal gives the number type. *)
Theorem invocation_is_answered_for_one_function identifierLiteral args :
  (is_Some (SimpleExternalTypeResolver (Invocation identifierLiteral args))
   ↔ identifierLiteral = SquareIfNumber) ∧
  (length args ≠ 1%nat →
   SimpleExternalTypeResolver (Invocation SquareIfNumber args) = Some NoneInstance) ∧
  (∀ arg, isNumberLiteral arg = false →
          SimpleExternalTypeResolver (Invocation SquareIfNumber [arg])
          = Some (if isNumber arg then NumberInstance else NoneInstance)).
Proof.
  unfold SimpleExternalTypeResolver. split_and!.
  - case_decide; [|split; [by intros [? ?]|done]]. split; [done|intros _].
    destruct args as [|arg [|]]; [by eexists| |by eexists].
    destruct (isNumberLiteral arg); [by eexists|]. by destruct (isNumber arg); eexists.
  - intros Hlen. rewrite decide_True by done. by destruct args as [|arg [|]].
  - intros arg Hlit. rewrite decide_True by done. rewrite Hlit. by destruct (isNumber arg).
Qed.

End FixtureCoverage.

(* ================================================================== *)
(** * The further properties at concrete instances                    *)
(* ================================================================== *)

Section CoverageInstances.
Import Examples CoverageExamples.

#[local] Existing Instance toyEngine.
#[local] Existing Instance toyResponses.

(** The workspace left by inspecting the good document. *)
Lemma inspected_workspace_reachable :
  reachable (getTriedInspection (E := toyEngine) goodDocument
               (mkRef 1%positive (mkPosition 0 2)) None None emptyWorkspace).2.
Proof. apply reachable_getTriedInspection, reachable_empty. Defined.

Lemma close_and_update_spare_other_documents_witness :
  let w := (getTriedParse (E := toyEngine) goodDocument None emptyWorkspace).2 in
  uri goodDocument ≠ uri unlexableDocument ∧
  sameEntriesAt (uri goodDocument) w (close unlexableDocument w) ∧
  sameEntriesAt (uri goodDocument) w (update unlexableDocument [] 2 w) ∧
  engineCalls (close unlexableDocument w) = engineCalls w ∧
  engineCalls (update unlexableDocument [] 2 w) = engineCalls w.
Proof.
  intros w. split; [discriminate|].
  apply (close_and_update_spare_other_documents (E := toyEngine)). discriminate.
Defined.

Lemma getters_spare_other_documents_witness :
  let w := (getTriedParse (E := toyEngine) goodDocument None emptyWorkspace).2 in
  let p := mkRef 1%positive (mkPosition 0 1) in
  uri goodDocument ≠ uri unlexableDocument ∧
  (sameEntriesAt (uri goodDocument) w (getLexerState unlexableDocument None w).2 ∧
   sameEntriesAt (uri goodDocument) w (getTriedLexerSnapshot unlexableDocument None w).2 ∧
   sameEntriesAt (uri goodDocument) w (getTriedParse unlexableDocument None w).2 ∧
   sameEntriesAt (uri goodDocument) w
     (getTriedInspection unlexableDocument p None None w).2) ∧
  ∀ f,
    invocations f (uri goodDocument) (engineCalls (getLexerState unlexableDocument None w).2)
    = invocations f (uri goodDocument) (engineCalls w) ∧
    invocations f (uri goodDocument)
      (engineCalls (getTriedLexerSnapshot unlexableDocument None w).2)
    = invocations f (uri goodDocument) (engineCalls w) ∧
    invocations f (uri goodDocument) (engineCalls (getTriedParse unlexableDocument None w).2)
    = invocations f (uri goodDocument) (engineCalls w) ∧
    invocations f (uri goodDocument)
      (engineCalls (getTriedInspection unlexableDocument p None None w).2)
    = invocations f (uri goodDocument) (engineCalls w).
Proof.
  intros w p. split; [discriminate|].
  apply (getters_spare_other_documents (E := toyEngine)). discriminate.
Defined.

(** The edited document is served the outcome stored for the good one. *)
Lemma cache_key_is_uri_alone_witness :
  let p := mkRef 1%positive (mkPosition 0 2) in
  let p' := mkRef 1%positive (mkPosition 0 5) in
  uri editedDocument = uri goodDocument ∧
  addr p' = addr p ∧
  runGetter (E := toyEngine) GetTriedParse editedDocument (Some "fr-FR")
    (runGetter GetTriedParse goodDocument None emptyWorkspace).2
  = runGetter GetTriedParse goodDocument None emptyWorkspace ∧
  getTriedInspection (E := toyEngine) editedDocument p' (Some "fr-FR") (Some ())
    (getTriedInspection goodDocument p None None emptyWorkspace).2
  = getTriedInspection goodDocument p None None emptyWorkspace.
Proof.
  intros p p'. do 2 (split; [reflexivity|]).
  apply (cache_key_is_uri_alone (E := toyEngine)); reflexivity.
Defined.

Lemma cached_stages_hang_together_witness :
  let w := (getTriedInspection (E := toyEngine) goodDocument
              (mkRef 1%positive (mkPosition 0 2)) None None emptyWorkspace).2 in
  let u := uri goodDocument in
  reachable w ∧
  (∀ s, LexerSnapshotCache w !! u = Some s →
        ∃ lx, LexerStateCache w !! u = Some lx ∧ s = snapshotFrom lx) ∧
  (∀ q, ParserCache w !! u = Some q →
        ∃ s l, LexerSnapshotCache w !! u = Some s ∧ q = parserFrom l s) ∧
  (∀ positionCache, InspectionCache w !! u = Some positionCache →
        ∃ q, ParserCache w !! u = Some q ∧
             ∀ a i, positionCache !! a = Some i → ∃ l x pos, i = inspectionFrom l x pos q).
Proof.
  intros w u. split; [apply inspected_workspace_reachable|].
  apply (cached_stages_hang_together (E := toyEngine)), inspected_workspace_reachable.
Defined.

Lemma inspection_leaves_every_stage_stored_witness :
  let w' := (getTriedInspection (E := toyEngine) unparsableDocument
               (mkRef 1%positive (mkPosition 0 2)) None None emptyWorkspace).2 in
  reachable (E := toyEngine) emptyWorkspace ∧
  (runGetter GetLexerState unparsableDocument (Some "fr-FR") w').2 = w'.
Proof.
  intros w'. split; [apply reachable_empty|].
  apply (inspection_leaves_every_stage_stored (E := toyEngine)), reachable_empty.
Defined.

Lemma inspection_never_returns_a_parser_item_witness :
  reachable (E := toyEngine) emptyWorkspace ∧
  (getTriedInspection (E := toyEngine) unparsableDocument
     (mkRef 1%positive (mkPosition 0 2)) None None emptyWorkspace).1
  = Some (InspectionItem (E := toyEngine) (Ok "partial")) ∧
  stage (InspectionItem (E := toyEngine) (Ok "partial")) ≠ Parser.
Proof.
  split; [apply reachable_empty|]. split; [reflexivity|].
  apply (inspection_never_returns_a_parser_item (E := toyEngine) unparsableDocument
           (mkRef 1%positive (mkPosition 0 2)) None None emptyWorkspace);
    [apply reachable_empty|reflexivity].
Defined.

Lemma emptyWorkspace_uncached d : uncached (E := toyEngine) d emptyWorkspace.
Proof. by repeat split. Defined.

Lemma cold_inspection_runs_each_stage_once_witness :
  uncached (E := toyEngine) unparsableDocument emptyWorkspace ∧
  let '(r, w') :=
    getTriedInspection (E := toyEngine) unparsableDocument
      (mkRef 1%positive (mkPosition 0 2)) None None emptyWorkspace in
  r = Some (inspectionItemOf unparsableDocument None None (mkPosition 0 2)) ∧
  invocations TryParse (uri unparsableDocument) (engineCalls w')
  = (invocations TryParse (uri unparsableDocument)
       (engineCalls (E := toyEngine) emptyWorkspace)
     + if mayRun unparsableDocument None TryParse then 1 else 0)%nat.
Proof.
  split; [apply emptyWorkspace_uncached|].
  apply (cold_inspection_runs_each_stage_once (E := toyEngine) unparsableDocument
           (mkRef 1%positive (mkPosition 0 2)) None None emptyWorkspace TryParse).
  apply emptyWorkspace_uncached.
Defined.

(** The synthesized token [Table.] of the dotted document. *)
Lemma resolved_token_spans_cursor_witness :
  let token := mkLineToken LineTokenKind_Identifier "Table." 0 6 in
  Analysis.maybeTokenAt (C := toyCollaborators) dottedDocument (mkPosition 0 6) = Some token ∧
  positionStart token ≤ 6 ≤ positionEnd token ∧
  let range := Analysis.getTokenRangeForPosition token (mkPosition 0 6) in
  line (range_start range) = 0 ∧
  line (range_end range) = 0 ∧
  character (range_start range) ≤ 6 ≤ character (range_end range).
Proof.
  intros token. split; [reflexivity|].
  apply (resolved_token_spans_cursor (C := toyCollaborators) dottedDocument (mkPosition 0 6)).
  reflexivity.
Defined.

Lemma resolved_token_origin_witness :
  let token := mkLineToken LineTokenKind_Identifier "Table." 0 6 in
  Analysis.maybeTokenAt (C := toyCollaborators) dottedDocument (mkPosition 0 6) = Some token ∧
  ∃ cursorLine,
    arrayAt (lines (Analysis.WorkspaceCache_getLexerState (Collaborators := toyCollaborators)
                      dottedDocument)) 0 = Some cursorLine ∧
    (token ∈ tokens cursorLine ∨
     (Analysis.firstTokenSpanning 6 (tokens cursorLine) = None ∧
      Analysis.dotBeforeCursor dottedDocument (mkPosition 0 6) = true ∧
      Analysis.maybeIdentifierAt (C := toyCollaborators) dottedDocument (mkPosition 0 6)
      = Some token ∧
      ∃ identifier, identifier ∈ tokens cursorLine ∧
                    kind identifier = LineTokenKind_Identifier ∧
                    data token = (data identifier ++ ".")%string ∧
                    positionStart token = positionStart identifier ∧
                    positionEnd token = positionEnd identifier + 1)).
Proof.
  intros token. split; [reflexivity|].
  apply (resolved_token_origin (C := toyCollaborators) dottedDocument (mkPosition 0 6) token).
  reflexivity.
Defined.

Lemma cursor_outside_the_lines_witness :
  (line (Analysis.position strayCursorSession) < 0 ∨
   Z.of_nat (length (lines (Analysis.WorkspaceCache_getLexerState
                              (Collaborators := toyCollaborators)
                              (Analysis.document strayCursorSession))))
     ≤ line (Analysis.position strayCursorSession)) ∧
  Analysis.maybeTokenAt (C := toyCollaborators) (Analysis.document strayCursorSession)
    (Analysis.position strayCursorSession) = None ∧
  Analysis.maybeIdentifierAt (C := toyCollaborators) (Analysis.document strayCursorSession)
    (Analysis.position strayCursorSession) = None ∧
  Analysis.completionContext (C := toyCollaborators) strayCursorSession
  = mkCompletionContext None None None ∧
  Analysis.getHover (C := toyCollaborators) strayCursorSession [] = Some (Fulfilled EmptyHover).
Proof.
  assert (line (Analysis.position strayCursorSession) < 0 ∨
          Z.of_nat (length (lines (Analysis.WorkspaceCache_getLexerState
                                     (Collaborators := toyCollaborators)
                                     (Analysis.document strayCursorSession))))
            ≤ line (Analysis.position strayCursorSession)) as Hout.
  { right. cbn. lia. }
  split; [exact Hout|].
  apply (cursor_outside_the_lines (C := toyCollaborators) strayCursorSession [] Hout).
Defined.

Lemma keyword_is_no_identifier token :
  Analysis.maybeTokenAt (C := keywordCollaborators) (Analysis.document keywordSession)
    (Analysis.position keywordSession) = Some token →
  kind token ≠ LineTokenKind_Identifier.
Proof. intros [= <-]. discriminate. Defined.

Lemma hover_needs_an_identifier_witness :
  (∀ token,
     Analysis.maybeTokenAt (C := keywordCollaborators) (Analysis.document keywordSession)
       (Analysis.position keywordSession) = Some token →
     kind token ≠ LineTokenKind_Identifier) ∧
  Analysis.getHover (C := keywordCollaborators) keywordSession [] = Some (Fulfilled EmptyHover).
Proof.
  split; [apply keyword_is_no_identifier|].
  apply (hover_needs_an_identifier (C := keywordCollaborators) keywordSession []).
  apply keyword_is_no_identifier.
Defined.


End CoverageInstances.

(* ================================================================== *)
(** * Properties of the analysis session over host providers          *)
(* ================================================================== *)

Section HostAnalysisProperties.
Context `{R : Responses} {C : Analysis.Collaborators}.

Import HostAnalysis.

(** Over providers with [async] methods the two embeddings of the session
    are the same. *)
Lemma host_session_agrees_on_async_providers (this : Analysis.DocumentAnalysis) settleOrder :
  getCompletionItems (ofAsyncSession this) settleOrder
  = Analysis.getCompletionItems this settleOrder ∧
  getHover (ofAsyncSession this) settleOrder = Analysis.getHover this settleOrder ∧
  getSignatureHelp (ofAsyncSession this) settleOrder
  = Analysis.getSignatureHelp this settleOrder.
Proof. split_and!; reflexivity. Qed.

(** When the four calls return, the outcome is that of [Promise.all] on the
    four promises, each with its [catch] handler. *)
Lemma getCompletionItems_returned this settleOrder pl pk pe ploc :
  libraryCall this = Returns pl →
  keywordCall this = Returns pk →
  environmentCall this = Returns pe →
  localCall this = Returns ploc →
  getCompletionItems this settleOrder
  = match Promise_all settleOrder
            (Fulfilled <$> [Analysis.contribution pl; Analysis.contribution pk;
                            Analysis.contribution pe; Analysis.contribution ploc]) with
    | None => None
    | Some _ =>
        Some (Fulfilled (Analysis.contribution pk ++ Analysis.contribution pl ++
                         Analysis.contribution pe ++ Analysis.contribution ploc))
    end.
Proof.
  unfold libraryCall, keywordCall, environmentCall, localCall, getCompletionItems.
  intros -> -> -> ->. rewrite !catch_contribution.
  change [Fulfilled (Analysis.contribution pl); Fulfilled (Analysis.contribution pk);
          Fulfilled (Analysis.contribution pe); Fulfilled (Analysis.contribution ploc)]
    with (Fulfilled <$> [Analysis.contribution pl; Analysis.contribution pk;
                         Analysis.contribution pe; Analysis.contribution ploc]).
  destruct (Promise_all _ _) as [outcome|] eqn:Hall; [|done].
  by rewrite (Promise_all_fulfilled _ _ _ Hall).
Qed.

(** A call that throws rejects the method with what it threw. *)
Lemma getCompletionItems_thrown this settleOrder e :
  completionThrown this = Some e →
  getCompletionItems this settleOrder = Some (Rejected e).
Proof.
  unfold completionThrown, libraryCall, keywordCall, environmentCall, localCall,
    getCompletionItems.
  destruct (HostProviders.getCompletionItems (librarySymbolProvider this) _);
    cbn; [|congruence].
  destruct (HostProviders.getCompletionItems (keywordProvider this) _);
    cbn; [|congruence].
  destruct (HostProviders.getCompletionItems (environmentSymbolProvider this) _);
    cbn; [|congruence].
  destruct (HostProviders.getCompletionItems (localSymbolProvider this) _);
    cbn; [done|congruence].
Qed.


(** C7, as amended: a public operation is rejected exactly when a provider
    call it makes throws before returning a promise, and then with what was
    thrown.  When no call throws, whatever the document, the cursor, the
    promises and the order in which they settle, the operation is not
    rejected: it stays pending only while a promise it waits for does not
    settle, and otherwise [getCompletionItems] resolves to the merged list,
    [getHover] and [getSignatureHelp] to the empty sentinel or to the
    response the library provider's promise fulfilled with. *)
Theorem operations_fail_exactly_on_thrown_calls this settleOrder :
  match getCompletionItems this settleOrder with
  | Some (Rejected e) => completionThrown this = Some e
  | Some (Fulfilled items) => completionThrown this = None ∧ items = mergedItems this
  | None => completionThrown this = None ∧ ¬ Analysis.allSettle 4 settleOrder
  end ∧
  match getHover this settleOrder with
  | Some (Rejected e) => hoverThrown this = Some e
  | Some (Fulfilled hover) =>
      hoverThrown this = None ∧
      (hover = EmptyHover ∨
       ∃ context, HostProviders.getHover (librarySymbolProvider this) context
                  = Returns (Fulfilled (Some hover)))
  | None => hoverThrown this = None ∧ 0%nat ∉ settleOrder
  end ∧
  match getSignatureHelp this settleOrder with
  | Some (Rejected e) => signatureThrown this = Some e
  | Some (Fulfilled help) =>
      signatureThrown this = None ∧
      (help = EmptySignatureHelp ∨
       ∃ context, HostProviders.getSignatureHelp (librarySymbolProvider this) context
                  = Returns (Fulfilled (Some help)))
  | None => signatureThrown this = None ∧ 0%nat ∉ settleOrder
  end.
Proof.
  split_and!.
  - destruct (completionThrown this) as [e|] eqn:Hthrown.
    + by rewrite (getCompletionItems_thrown this settleOrder e).
    + unfold completionThrown in Hthrown. unfold mergedItems.
      destruct (libraryCall this) as [pl|] eqn:Hl; [|done].
      destruct (keywordCall this) as [pk|] eqn:Hk; [|done].
      destruct (environmentCall this) as [pe|] eqn:He; [|done].
      destruct (localCall this) as [ploc|] eqn:Hloc; [|done].
      rewrite (getCompletionItems_returned this settleOrder pl pk pe ploc Hl Hk He Hloc).
      destruct (Promise_all _ _) eqn:Hall; [done|].
      split; [done|]. intros Hsettle. by rewrite Promise_all_settles in Hall.
  - unfold getHover, hoverThrown, hoverCall.
    destruct (Analysis.maybeIdentifierAt _ _) as [token|]; [|by split; [|left]].
    destruct (HostProviders.getHover _ _) as [promise|e] eqn:Hcall; [|done].
    rewrite catch_fulfilled, Promise_all_one. case_decide; [|done].
    destruct promise as [[hover|]|e]; (split; [done|]); [|by left..].
    right. eauto.
  - unfold getSignatureHelp, signatureThrown, signatureCall.
    destruct (Analysis.WorkspaceCache_maybeTriedInspection _ _) as [[inspected|e]|];
      [|by split; [|left]..].
    destruct (Analysis.InspectionUtils_maybeSignatureProviderContext _) as [context|];
      [|by split; [|left]].
    destruct (maybeFunctionName context); [|by split; [|left]].
    destruct (HostProviders.getSignatureHelp _ _) as [promise|e] eqn:Hcall; [|done].
    rewrite catch_fulfilled, Promise_all_one. case_decide; [|done].
    destruct promise as [[help|]|e]; (split; [done|]); [|by left..].
    right. eauto.
Qed.

End HostAnalysisProperties.

Section HostInstances.
Import Examples HostExamples.

#[local] Existing Instance toyResponses.
#[local] Existing Instance toyCollaborators.



(** C7, as stated, fails: with an identifier under the cursor and a library
    provider whose [getHover] call throws, what was thrown escapes
    [getHover] as the rejection of its promise. *)
Lemma thrown_provider_call_rejects_hover :
  Analysis.maybeIdentifierAt (C := toyCollaborators)
    (HostAnalysis.document throwingLibrarySession)
    (HostAnalysis.position throwingLibrarySession)
  = Some (mkLineToken LineTokenKind_Identifier "Table." 0 6) ∧
  HostAnalysis.getHover throwingLibrarySession [0]%nat = Some (Rejected "provider crashed") ∧
  HostAnalysis.getHover throwingLibrarySession [] = Some (Rejected "provider crashed").
Proof. by repeat split. Qed.

End HostInstances.
